(** * Mind Network airdrop scripts: claim.js and check.js

    A shallow embedding of the two scripts of the repository
    ([src/claim.js], the claim variant, and [src/check.js], the check-only
    variant) and the properties of their retry controller, wallet pipeline
    and task pool.

    The scripts orchestrate third-party collaborators (the HTTP request
    manager, the ethers wallet, the contract).  Their answers are inputs
    of the model: every function below takes the answers of the
    collaborators it calls as arguments and returns, next to its result,
    the list of calls it made. *)

From Stdlib Require Import ZArith String Ascii List Lia Bool Permutation DecimalString.
From stdpp Require Import base gmap strings list.
Import ListNotations.

Local Open Scope string_scope.
Local Open Scope Z_scope.

(** ** JavaScript strings and values *)

Module JS.

(** [s.startsWith(p)] *)
Fixpoint startsWith (p s : string) : bool :=
  match p with
  | EmptyString => true
  | String a p' =>
      match s with
      | EmptyString => false
      | String b s' => if Ascii.eqb a b then startsWith p' s' else false
      end
  end.

(** [s.slice(n)] for a non-negative [n]: the string without its first
    [n] characters. *)
Fixpoint slice (n : nat) (s : string) : string :=
  match n with
  | O => s
  | S n' => match s with
            | EmptyString => EmptyString
            | String _ s' => slice n' s'
            end
  end.

(** The first [n] characters of [pad] repeated as often as needed, as
    [padStart] builds its filler; [cur] is what is left of the copy of
    [pad] being written. *)
Fixpoint filler (n : nat) (pad cur : string) : string :=
  match n with
  | O => EmptyString
  | S n' =>
      match cur with
      | String a cur' => String a (filler n' pad cur')
      | EmptyString =>
          match pad with
          | String a pad' => String a (filler n' pad pad')
          | EmptyString => EmptyString
          end
      end
  end.

(** [s.padStart(target, pad)]: a string that is already [target] long
    or longer, or an empty [pad], gives [s] back unchanged; nothing is
    ever cut off [s]. *)
Definition padStart (target : nat) (pad s : string) : string :=
  if (target <=? String.length s)%nat then s
  else match pad with
       | EmptyString => s
       | _ => filler (target - String.length s) pad pad ++ s
       end.

(** ["c".repeat(n)] *)
Fixpoint repeat (c : string) (n : nat) : string :=
  match n with
  | O => EmptyString
  | S n' => c ++ repeat c n'
  end.

(** The values the scripts inspect: [undefined], [null], a string, an
    integral number (the [code] of a response, the [status] of a receipt
    or of an HTTP error) or a bigint. *)
Inductive value : Type :=
| Undefined
| Null
| Str (s : string)
| Num (n : Z)
| Big (n : Z).

(** [!v] is [negb (truthy v)]. *)
Definition truthy (v : value) : bool :=
  match v with
  | Undefined | Null => false
  | Str s => negb (String.eqb s "")
  | Num n => negb (Z.eqb n 0)
  | Big n => negb (Z.eqb n 0)
  end.

(** [v === w] on these values. *)
Definition strict_eq (v w : value) : bool :=
  match v, w with
  | Undefined, Undefined => true
  | Null, Null => true
  | Str s, Str t => String.eqb s t
  | Num n, Num m => Z.eqb n m
  | Big n, Big m => Z.eqb n m
  | _, _ => false
  end.

End JS.

(** ** Proof entries: the normalisation of [buildClaimTx] *)

(** [p.startsWith('0x') ? p.slice(2) : p] *)
Definition hexValue (p : string) : string :=
  if JS.startsWith "0x" p then JS.slice 2 p else p.

(** [hexValue.padStart(64, '0')] *)
Definition paddedHex (p : string) : string :=
  JS.padStart 64 "0" (hexValue p).

(** The body of the arrow function mapped over the proof. *)
Definition formatProofEntry (p : string) : string :=
  "0x" ++ paddedHex p.

Definition is_hex_digit (a : ascii) : bool :=
  let n := nat_of_ascii a in
  ((48 <=? n) && (n <=? 57) || (97 <=? n) && (n <=? 102)
   || (65 <=? n) && (n <=? 70))%nat.

Fixpoint all_hex (s : string) : bool :=
  match s with
  | EmptyString => true
  | String a s' => is_hex_digit a && all_hex s'
  end.

(** ** Errors and results *)

(** What a [catch] clause can receive.  [response_status] below is
    [error.response?.status]. *)
Inductive Err : Type :=
| LibraryError (message : string) (status : JS.value)
    (** thrown or rejected by a collaborator *)
| CodeError (code : JS.value)
    (** [new Error(`请求返回错误码: ${response.code}`)] *)
| TypeError (what : string)
    (** a property read on [undefined] or [null], a call of a non-function,
        [BigInt(undefined)] *)
| SyntaxError (what : string)
    (** [BigInt] of a string that is no integer literal *)
| NumericFault (what : string)
    (** an ethers assertion *)
| ThrownUndefined
    (** the value [undefined]: a promise rejected without a reason, or
        [throw lastError] with [lastError] never assigned *)
| ThrownNull.
    (** the value [null] *)

Definition response_status (e : Err) : JS.value :=
  match e with
  | LibraryError _ status => status
  | _ => JS.Undefined
  end.

(** The caught value is [undefined] or [null]: it has no property to
    read. *)
Definition nullish (e : Err) : bool :=
  match e with
  | ThrownUndefined | ThrownNull => true
  | _ => false
  end.

(** The [TypeError] of reading [property] from a nullish value. *)
Definition read_fault (property : string) (e : Err) : Err :=
  TypeError ("Cannot read properties of "
             ++ match e with ThrownNull => "null" | _ => "undefined" end
             ++ " (reading '" ++ property ++ "')").

(** The completion of a call: a value, or a thrown error (for an async
    function: a promise that resolves, or one that rejects). *)
Inductive Outcome (A : Type) : Type :=
| Return (a : A)
| Throw (e : Err).
Arguments Return {A} a.
Arguments Throw {A} e.

(** ** [BigInt(v)] *)

Module BigInt.

(** White space and line terminators, within ASCII. *)
Definition is_space (a : ascii) : bool :=
  let n := nat_of_ascii a in
  ((9 <=? n) && (n <=? 13) || (n =? 32))%nat.

Fixpoint trimStart (s : string) : string :=
  match s with
  | String a s' => if is_space a then trimStart s' else s
  | EmptyString => EmptyString
  end.

Fixpoint trimEnd (s : string) : string :=
  match s with
  | EmptyString => EmptyString
  | String a s' =>
      match trimEnd s' with
      | EmptyString => if is_space a then EmptyString else String a EmptyString
      | t => String a t
      end
  end.

Definition digit (a : ascii) : option Z :=
  let n := Z.of_nat (nat_of_ascii a) in
  if (48 <=? n) && (n <=? 57) then Some (n - 48)
  else if (97 <=? n) && (n <=? 122) then Some (n - 87)
  else if (65 <=? n) && (n <=? 90) then Some (n - 55)
  else None.

Fixpoint digits (radix acc : Z) (s : string) : option Z :=
  match s with
  | EmptyString => Some acc
  | String a s' =>
      match digit a with
      | Some d => if d <? radix then digits radix (acc * radix + d) s' else None
      | None => None
      end
  end.

(** One digit at least. *)
Definition number (radix : Z) (s : string) : option Z :=
  match s with
  | EmptyString => None
  | _ => digits radix 0 s
  end.

(** StringToBigInt: white space around the literal is dropped, the empty
    string is [0n], a decimal literal may carry a sign, [0x], [0o] and
    [0b] literals may not. *)
Definition of_string (s : string) : option Z :=
  match trimEnd (trimStart s) with
  | EmptyString => Some 0
  | String "0" (String ("x" | "X") t) => number 16 t
  | String "0" (String ("o" | "O") t) => number 8 t
  | String "0" (String ("b" | "B") t) => number 2 t
  | String "-" t => option_map Z.opp (number 10 t)
  | String "+" t => number 10 t
  | t => number 10 t
  end%char.

Definition of_value (v : JS.value) : Outcome Z :=
  match v with
  | JS.Undefined => Throw (TypeError "Cannot convert undefined to a BigInt")
  | JS.Null => Throw (TypeError "Cannot convert null to a BigInt")
  | JS.Str s =>
      match of_string s with
      | Some n => Return n
      | None => Throw (SyntaxError "Cannot convert string to a BigInt")
      end
  | JS.Num n => Return n
  | JS.Big n => Return n
  end.

End BigInt.

(** ** The ethers functions the scripts compute with *)

Module ethers.

(** [val.toString()] of a non-negative bigint. *)
Definition decimal (n : Z) : string :=
  NilZero.string_of_uint (N.to_uint (Z.to_N n)).

Fixpoint rev_onto (s acc : string) : string :=
  match s with
  | EmptyString => acc
  | String a s' => rev_onto s' (String a acc)
  end.

Definition rev (s : string) : string := rev_onto s EmptyString.

(** [while (str.length <= decimals) { str = Zeros + str; }] with
    [Zeros = "0000"]; every round makes [str] longer, so [decimals + 1]
    rounds are more than the loop can take. *)
Fixpoint pad_whole (rounds decimals : nat) (str : string) : string :=
  match rounds with
  | O => str
  | S r =>
      if (String.length str <=? decimals)%nat
      then pad_whole r decimals ("0000" ++ str)
      else str
  end.

(** [while (str[0] === "0" && str[1] !== ".") { str = str.substring(1); }] *)
Fixpoint trim_zeros (str : string) : string :=
  match str with
  | String "0" (String "." _) => str
  | String "0" rest => trim_zeros rest
  | _ => str
  end%char.

(** FixedNumber's [toString(val, decimals)] for [decimals > 0]: the
    decimal point is put [decimals] digits from the end, then zeros are
    trimmed on both sides, one digit staying on each side of the point
    (the loop at the end of the string is the loop at its start, run on
    the reversed string). *)
Definition toString (val : Z) (decimals : nat) : string :=
  let negative := if val <? 0 then "-" else "" in
  let val := Z.abs val in
  let str := pad_whole (S decimals) decimals (decimal val) in
  let index := (String.length str - decimals)%nat in
  let str := substring 0 index str ++ "." ++ JS.slice index str in
  let str := trim_zeros str in
  let str := rev (trim_zeros (rev str)) in
  negative ++ str.

(** [checkValue] of a signed format 512 bits wide. *)
Definition in_range (val : Z) : bool :=
  (- 2 ^ 511 <=? val) && (val <? 2 ^ 511).

(** [formatUnits(value, decimals)], which is
    [FixedNumber.fromValue(value, decimals, { decimals, width: 512 }).toString()]. *)
Definition formatUnits (value : Z) (decimals : nat) : Outcome string :=
  if in_range value then Return (toString value decimals)
  else Throw (NumericFault "overflow").

(** [formatEther(wei)] is [formatUnits(wei, 18)]. *)
Definition formatEther (wei : Z) : Outcome string := formatUnits wei 18.

Fixpoint all_digits (s : string) : bool :=
  match s with
  | EmptyString => true
  | String a s' =>
      let n := nat_of_ascii a in
      ((48 <=? n) && (n <=? 57))%nat && all_digits s'
  end.

(** The digits of [s] before its first ["."], and what follows it. *)
Fixpoint split_point (s : string) : string * option string :=
  match s with
  | EmptyString => (EmptyString, None)
  | String "." rest => (EmptyString, Some rest)
  | String a rest =>
      let '(w, d) := split_point rest in (String a w, d)
  end%char.

Fixpoint all_zeros (s : string) : bool :=
  match s with
  | EmptyString => true
  | String "0" s' => all_zeros s'
  | _ => false
  end%char.

(** [parseUnits(value, decimals)], which is
    [FixedNumber.fromString(value, { decimals, width: 512 }).value]: the
    string is an optional minus sign, digits, an optional point and
    digits, with a digit somewhere; the decimals are filled with zeros
    up to [decimals] and may not carry a non-zero digit beyond. *)
Definition parseUnits (value : string) (decimals : nat) : Outcome Z :=
  let '(neg, body) :=
    match value with
    | String "-" rest => (true, rest)
    | _ => (false, value)
    end%char in
  let '(whole, dec) := split_point body in
  let dec := match dec with Some d => d | None => EmptyString end in
  if negb (all_digits whole && all_digits dec)
     || (String.length whole + String.length dec =? 0)%nat
  then Throw (NumericFault "invalid FixedNumber string value")
  else
    let dec := JS.padStart decimals "0" (rev dec) in
    let dec := rev dec in
    if negb (all_zeros (JS.slice decimals dec))
    then Throw (NumericFault "too many decimals for format")
    else
      match BigInt.number 10 (whole ++ substring 0 decimals dec) with
      | Some n =>
          let n := if neg then - n else n in
          if in_range n then Return n else Throw (NumericFault "overflow")
      | None => Throw (NumericFault "invalid FixedNumber string value")
      end.

(** The unit name ["gwei"] stands for 9 decimals. *)
Definition gwei : nat := 9.

End ethers.

(** ** The agent and its collaborators *)

Inductive Status : Type := success | failed | no_eligibility | error.

(** A row of the results: [{address, amount, status}] in the claim
    variant; the check-only variant pushes [{address, amount}], which has
    no status ([None]). *)
Record WalletOutcome : Type := {
  address : string;
  amount : string;
  status : option Status
}.

(** The fields of [MindAgent] that change during a run. *)
Record Agent : Type := {
  successCount : Z;
  failCount : Z;
  results : list WalletOutcome;
  totalAmount : Z
}.

(** The constructor. *)
Definition new_MindAgent : Agent :=
  {| successCount := 0; failCount := 0; results := []; totalAmount := 0 |}.

(** [this.maxRetries], set by the constructor and never assigned again. *)
Definition maxRetries : Z := 5.

Inductive Variant : Type :=
| ClaimV   (** src/claim.js *)
| CheckV.  (** src/check.js *)

(** A row of wallet.csv. *)
Record WalletData : Type := {
  add : string;
  pk : string;
  proxy : string
}.

(** [response.data] when it is truthy. *)
Record Data : Type := {
  data_amount : JS.value;
  data_proof : JS.value
}.

(** What [simpleRequest] resolves to when it is an object: its [code] and
    its [data] ([None] when [data] is absent or falsy).  A response that
    is [undefined] or [null] is [None] at the type [option Response]. *)
Record Response : Type := {
  code : JS.value;
  data : option Data
}.

(** A transaction object: its properties by name. *)
Abbreviation TxObject := (gmap string JS.value).

(** The calls a pipeline makes on its collaborators, and its waits. *)
Inductive Event : Type :=
| EvSignMessage (message : string)
| EvSimpleRequest (wallet signature : string) (timeout : option Z)
| EvDelay (ms : Z)
| EvPopulateTransaction (fullAmount : Z) (proof : list string)
| EvSendTransaction (tx : TxObject)
| EvWait.

(** The answers of the collaborators of one wallet's pipeline: the
    request manager of [../http.js], the ethers wallet and contract, and
    [JSON.parse].  A constructor answers [None] when it builds its object
    and [Some e] when it throws [e]. *)
Record Collaborators : Type := {
  new_RequestManager : option Err;
  new_Wallet : option Err;
  signMessage : Outcome string;
  (** the answer to the [k]-th call of [simpleRequest], [k] from 0 *)
  simpleRequest : nat -> Outcome (option Response);
  (** [JSON.parse(v)]: an array ([Some]) or another value ([None]) *)
  JSON_parse : JS.value -> Outcome (option (list JS.value));
  new_Contract : option Err;
  populateTransaction : Z -> list string -> Outcome TxObject;
  sendTransaction_answer : TxObject -> Outcome unit;
  (** [txResponse.wait()]: [null], or a receipt with its [status] *)
  wait : Outcome (option JS.value)
}.

(** ** Computations: state, trace and exceptions *)

Record St : Type := {
  agent : Agent;
  trace : list Event;
  (** the number of [simpleRequest] calls made so far *)
  calls : nat
}.

Definition M (A : Type) : Type := St -> Outcome A * St.

Definition ret {A} (a : A) : M A := fun s => (Return a, s).

Definition throw {A} (e : Err) : M A := fun s => (Throw e, s).

Definition bind {A B} (m : M A) (k : A -> M B) : M B :=
  fun s => match m s with
           | (Return a, s') => k a s'
           | (Throw e, s') => (Throw e, s')
           end.

Notation "x <~ m ;; k" := (bind m (fun x => k))
  (at level 100, m at next level, k at level 200, right associativity).
Notation "m ;;; k" := (bind m (fun _ => k))
  (at level 100, k at level 200, right associativity).

(** [try { body } catch (error) { handler }] *)
Definition try_catch {A} (body : M A) (handler : Err -> M A) : M A :=
  fun s => match body s with
           | (Return a, s') => (Return a, s')
           | (Throw e, s') => handler e s'
           end.

Definition lift {A} (o : Outcome A) : M A := fun s => (o, s).

Definition emit (ev : Event) : M unit :=
  fun s => (Return tt,
            {| agent := agent s; trace := trace s ++ [ev]; calls := calls s |}).

Definition modify (f : Agent -> Agent) : M unit :=
  fun s => (Return tt,
            {| agent := f (agent s); trace := trace s; calls := calls s |}).

(** [new C(...)] *)
Definition construct (answer : option Err) : M unit :=
  match answer with
  | None => ret tt
  | Some e => throw e
  end.

(** [await this.delay(ms)] *)
Definition delay (ms : Z) : M unit := emit (EvDelay ms).

(** [error.property], read in a [catch] clause from the value it caught:
    the read throws when the value is nullish.  What is read is used for
    the log line only, or through [response_status]. *)
Definition read_property (property : string) (err : Err) : M unit :=
  if nullish err then throw (read_fault property err) else ret tt.

(** ** The retry controller: [checkEligibilityWithRetry] *)

(** The claim variant passes [timeout: 15000], the check-only variant no
    timeout. *)
Definition request_timeout (v : Variant) : option Z :=
  match v with
  | ClaimV => Some 15000
  | CheckV => None
  end.

(** [await requestManager.simpleRequest({...})] *)
Definition call_simpleRequest (v : Variant) (c : Collaborators)
    (wallet signature : string) : M (option Response) :=
  fun s =>
    (simpleRequest c (calls s),
     {| agent := agent s;
        trace := trace s ++ [EvSimpleRequest wallet signature (request_timeout v)];
        calls := S (calls s) |}).

(** [throw lastError] *)
Definition throw_last {A} (lastError : option Err) : M A :=
  match lastError with
  | Some e => throw e
  | None => throw ThrownUndefined
  end.

(** The [while] loop of [checkEligibilityWithRetry], entered with the
    current [retryCount] and [lastError].  A round either returns the
    response ([inl]) or goes back to the loop test with the new values of
    the two variables ([inr]).  Every round that does not return adds one
    to [retryCount], so [maxRetries - retryCount] rounds are all the loop
    can make: [rounds] is never used up while the loop test holds
    (see [retry_loop_rounds]).  The [catch] clause reads
    [error.response] from what it caught; when that is nullish the read
    throws, and the [TypeError] leaves the loop and the function. *)
Fixpoint retry_loop (rounds : nat) (v : Variant) (c : Collaborators)
    (address signature : string) (retryCount : Z) (lastError : option Err)
    : M Response :=
  if retryCount <? maxRetries then
    match rounds with
    | O => throw_last lastError
    | S rounds' =>
        round <~ try_catch
          (response <~ call_simpleRequest v c address signature ;;
           match response with
           | None => throw (TypeError "Cannot read properties of undefined (reading 'code')")
           | Some response =>
               if JS.strict_eq (code response) (JS.Num 0)
               then ret (inl response)
               else throw (CodeError (code response))
           end)
          (fun err =>
             let lastError := Some err in
             let retryCount := retryCount + 1 in
             read_property "response" err ;;;
             if JS.strict_eq (response_status err) (JS.Num 429) then
               let waitTime := 5000 + retryCount * 2000 in
               delay waitTime ;;;
               ret (inr (retryCount, lastError))
             else if retryCount <? maxRetries then
               delay (retryCount * 1000) ;;;
               ret (inr (retryCount, lastError))
             else ret (inr (retryCount, lastError))) ;;
        match round with
        | inl response => ret response
        | inr (retryCount, lastError) =>
            retry_loop rounds' v c address signature retryCount lastError
        end
    end
  else throw_last lastError.

Definition checkEligibilityWithRetry (v : Variant) (c : Collaborators)
    (address signature : string) : M Response :=
  retry_loop (Z.to_nat maxRetries) v c address signature 0 None.

(** ** The stages of the wallet pipeline *)

Definition sign_message : string :=
  "Sign to check the amount of FHE this wallet is eligible to claim.".

Definition createSignature (c : Collaborators) : M string :=
  try_catch
    (emit (EvSignMessage sign_message) ;;; lift (signMessage c))
    (fun err => throw err).

Definition formatTokenAmount (amount : JS.value) : string :=
  if negb (JS.truthy amount) then "0"
  else
    match BigInt.of_value amount with
    | Return amountBN =>
        match ethers.formatEther amountBN with
        | Return s => s
        | Throw _ => "0"
        end
    | Throw _ => "0"
    end.

(** The arrow function of [proof.map] on one element: a string is
    normalised, another value has no [startsWith] to call. *)
Definition format_entry (p : JS.value) : Outcome string :=
  match p with
  | JS.Str p => Return (formatProofEntry p)
  | JS.Undefined | JS.Null =>
      Throw (TypeError "Cannot read properties of undefined (reading 'startsWith')")
  | _ => Throw (TypeError "p.startsWith is not a function")
  end.

Fixpoint map_entries (proof : list JS.value) : Outcome (list string) :=
  match proof with
  | [] => Return []
  | p :: rest =>
      match format_entry p with
      | Throw e => Throw e
      | Return q =>
          match map_entries rest with
          | Throw e => Throw e
          | Return qs => Return (q :: qs)
          end
      end
  end.

(** [proof.map(p => ...)], [proof] being what [JSON.parse] gave. *)
Definition formattedProof (proof : option (list JS.value)) : Outcome (list string) :=
  match proof with
  | None => Throw (TypeError "proof.map is not a function")
  | Some entries => map_entries entries
  end.

Definition buildClaimTx (c : Collaborators) (amount : JS.value)
    (proof : option (list JS.value)) : M TxObject :=
  try_catch
    (construct (new_Contract c) ;;;
     formatted <~ lift (formattedProof proof) ;;
     fullAmount <~ lift (BigInt.of_value amount) ;;
     emit (EvPopulateTransaction fullAmount formatted) ;;;
     lift (populateTransaction c fullAmount formatted))
    (fun err => throw err).

(** [{...txData, gasLimit: 160000, gasPrice: ..., type: 0}] *)
Definition tx_request (txData : TxObject) (gasPrice : Z) : TxObject :=
  <["type" := JS.Num 0]>
    (<["gasPrice" := JS.Big gasPrice]>
       (<["gasLimit" := JS.Num 160000]> txData)).

(** The [catch] clause reads [error.shortMessage] for its log line
    before it throws the error again. *)
Definition sendTransaction (c : Collaborators) (txData : TxObject) : M bool :=
  try_catch
    (gasPrice <~ lift (ethers.parseUnits "1.02" ethers.gwei) ;;
     let tx := tx_request txData gasPrice in
     emit (EvSendTransaction tx) ;;;
     lift (sendTransaction_answer c tx) ;;;
     emit EvWait ;;;
     receipt <~ lift (wait c) ;;
     match receipt with
     | None => throw (TypeError "Cannot read properties of null (reading 'status')")
     | Some receipt_status =>
         if JS.strict_eq receipt_status (JS.Num 1) then ret true else ret false
     end)
    (fun err => read_property "shortMessage" err ;;; throw err).

(** ** [processWallet] *)

Definition push (r : WalletOutcome) : M unit :=
  modify (fun a => {| successCount := successCount a; failCount := failCount a;
                      results := results a ++ [r]; totalAmount := totalAmount a |}).

(** [this.successCount++] *)
Definition incr_successCount : M unit :=
  modify (fun a => {| successCount := successCount a + 1; failCount := failCount a;
                      results := results a; totalAmount := totalAmount a |}).

(** [this.failCount++] *)
Definition incr_failCount : M unit :=
  modify (fun a => {| successCount := successCount a; failCount := failCount a + 1;
                      results := results a; totalAmount := totalAmount a |}).

(** [this.totalAmount += BigInt(amount)] *)
Definition add_totalAmount (amount : JS.value) : M unit :=
  n <~ lift (BigInt.of_value amount) ;;
  modify (fun a => {| successCount := successCount a; failCount := failCount a;
                      results := results a; totalAmount := totalAmount a + n |}).

(** [!response?.data || !response.data.amount || response.data.amount === '0'] *)
Definition no_claimable (response : Response) : bool :=
  match data response with
  | None => true
  | Some d =>
      negb (JS.truthy (data_amount d)) || JS.strict_eq (data_amount d) (JS.Str "0")
  end.

(** The [try] block of the claim variant from the test of the response
    on.  Past the test, [response.data] is read again; it is there, or the
    test would have held. *)
Definition claim_response (walletData : WalletData) (c : Collaborators)
    (response : Response) : M unit :=
  if no_claimable response then
    push {| address := add walletData; amount := "0";
            status := Some no_eligibility |} ;;;
    incr_failCount
  else
    match data response with
    | None => throw (TypeError "Cannot read properties of undefined (reading 'amount')")
    | Some d =>
        proof <~ lift (JSON_parse c (data_proof d)) ;;
        txData <~ buildClaimTx c (data_amount d) proof ;;
        ok <~ sendTransaction c txData ;;
        let amountFormatted := formatTokenAmount (data_amount d) in
        push {| address := add walletData; amount := amountFormatted;
                status := Some (if ok then success else failed) |} ;;;
        (if ok then incr_successCount else incr_failCount) ;;;
        add_totalAmount (data_amount d)
    end.

(** The [try] block of the claim variant. *)
Definition pipeline_claim (walletData : WalletData) (c : Collaborators) : M unit :=
  signature <~ createSignature c ;;
  response <~ checkEligibilityWithRetry ClaimV c (add walletData) signature ;;
  claim_response walletData c response.

(** The [try] block of the check-only variant from the test of the
    response on. *)
Definition check_response (walletData : WalletData) (response : Response) : M unit :=
  match data response with
  | Some d =>
      let amount := formatTokenAmount (data_amount d) in
      push {| address := add walletData; amount := amount; status := None |} ;;;
      (if JS.truthy (data_amount d)
          && negb (JS.strict_eq (data_amount d) (JS.Str "0"))
       then add_totalAmount (data_amount d)
       else ret tt) ;;;
      incr_successCount
  | None =>
      push {| address := add walletData; amount := "0"; status := None |} ;;;
      incr_failCount
  end.

(** The [try] block of the check-only variant. *)
Definition pipeline_check (walletData : WalletData) (c : Collaborators) : M unit :=
  signature <~ createSignature c ;;
  response <~ checkEligibilityWithRetry CheckV c (add walletData) signature ;;
  check_response walletData response.

Definition pipeline (v : Variant) : WalletData -> Collaborators -> M unit :=
  match v with
  | ClaimV => pipeline_claim
  | CheckV => pipeline_check
  end.

(** The row pushed by the [catch] clause. *)
Definition error_row (v : Variant) (walletData : WalletData) : WalletOutcome :=
  {| address := add walletData; amount := "0";
     status := match v with ClaimV => Some error | CheckV => None end |}.

(** The two collaborators are built before the [try] block is entered.
    The [catch] clause reads [error.message] for its log line before it
    pushes the row: when the caught value is nullish the read throws and
    [processWallet] rejects, with no row pushed and nothing counted. *)
Definition processWallet (v : Variant) (walletData : WalletData)
    (c : Collaborators) : M unit :=
  construct (new_RequestManager c) ;;;
  construct (new_Wallet c) ;;;
  try_catch
    (pipeline v walletData c)
    (fun err =>
       read_property "message" err ;;;
       push (error_row v walletData) ;;;
       incr_failCount).

(** ** The task pool: [processWallets] *)

(** A row of the wallet list together with the answers its collaborators
    will give. *)
Record Job : Type := {
  walletData : WalletData;
  collaborators : Collaborators
}.

(** Where a chain of [processOne] calls stands.  A chain is one initial
    call of [processOne] and the calls nested in it: each call awaits the
    next one, so the promise of the first resolves when the last returns. *)
Inductive Chain : Type :=
| Processing (i : nat)  (** awaiting [this.processWallet(wallets[i])] *)
| CoolingDown           (** awaiting the delay of the [finally] block *)
| Returned.             (** resolved *)

(** Where the body of [processWallets] stands. *)
Inductive Main : Type :=
| Seeding (i : nat)  (** in the [for] loop, awaiting [this.delay(2000)] of round [i] *)
| Joining            (** awaiting [Promise.all([...runningTasks])] *)
| Saved.             (** past [Promise.all]: results saved, summary printed *)

(** The shared state of a run and the tasks in flight.  [settled] is the
    log of the run: the wallets whose [processWallet] has settled, in the
    order of completion. *)
Record Pool : Type := {
  currentIndex : nat;
  pool_agent : Agent;
  chains : list Chain;
  main : Main;
  settled : list nat
}.

Section TaskPool.

Variable v : Variant.
Variable wallets : list Job.
Variable concurrentLimit : nat.

(** [Math.min(concurrentLimit, wallets.length)] *)
Definition seeds : nat := Nat.min concurrentLimit (length wallets).

(** A call of [processOne], up to its first [await]: it returns at once
    when the cursor is at the end of the list, else it takes the wallet
    under the cursor and moves the cursor on. *)
Definition processOne (cursor : nat) : Chain * nat :=
  if (length wallets <=? cursor)%nat then (Returned, cursor)
  else (Processing cursor, S cursor).

(** Round [i] of the [for] loop from [const task = processOne()] on, up
    to the next [await]. *)
Definition seed (i : nat) (p : Pool) : Pool :=
  let '(chain, cursor) := processOne (currentIndex p) in
  {| currentIndex := cursor;
     pool_agent := pool_agent p;
     chains := chains p ++ [chain];
     main := if (S i <? seeds)%nat then Seeding (S i) else Joining;
     settled := settled p |}.

(** [processWallets] up to its first [await] past [loadWallets], on a
    fresh agent. *)
Definition start : Pool :=
  let p := {| currentIndex := 0; pool_agent := new_MindAgent;
              chains := []; main := Joining; settled := [] |} in
  if (0 <? seeds)%nat then seed 0 p else p.

(** The agent once [processWallet(wallets[i])] has settled.  Every
    write of [processWallet] to the agent comes after its last [await],
    so the writes of one wallet are not interleaved with those of
    another.  A rejection is caught by [processOne] and logged.  An
    index past the end would give [undefined], whose [proxy] cannot be
    read: a rejection before any write. *)
Definition settle (i : nat) (a : Agent) : Agent :=
  match wallets !! i with
  | Some job =>
      agent (snd (processWallet v (walletData job) (collaborators job)
                    {| agent := a; trace := []; calls := 0 |}))
  | None => a
  end.

Definition all_returned (cs : list Chain) : bool :=
  forallb (fun c => match c with Returned => true | _ => false end) cs.

(** What the event loop resumes next: the body of [processWallets], or
    the [k]-th chain. *)
Inductive Choice : Type :=
| ResumeMain
| ResumeChain (k : nat).

(** One turn of the event loop; [None] when the chosen task is not
    ready to resume.  A chain that awaits [processWallet] is resumed with
    the call settled, returned or rejected: the turn stands for the whole
    pipeline of the wallet.  The scripts put no bound on how long that
    takes; a pipeline that never settles is a chain that is never
    chosen. *)
Definition step (ch : Choice) (p : Pool) : option Pool :=
  match ch with
  | ResumeMain =>
      match main p with
      | Seeding i => Some (seed i p)
      | Joining =>
          if all_returned (chains p)
          then Some {| currentIndex := currentIndex p; pool_agent := pool_agent p;
                       chains := chains p; main := Saved; settled := settled p |}
          else None
      | Saved => None
      end
  | ResumeChain k =>
      match chains p !! k with
      | Some (Processing i) =>
          Some {| currentIndex := currentIndex p;
                  pool_agent := settle i (pool_agent p);
                  chains := <[k := CoolingDown]> (chains p);
                  main := main p;
                  settled := settled p ++ [i] |}
      | Some CoolingDown =>
          let '(chain, cursor) :=
            if (currentIndex p <? length wallets)%nat
            then processOne (currentIndex p)
            else (Returned, currentIndex p) in
          Some {| currentIndex := cursor; pool_agent := pool_agent p;
                  chains := <[k := chain]> (chains p); main := main p;
                  settled := settled p |}
      | Some Returned | None => None
      end
  end.

(** A run under a schedule; a choice that is not ready is skipped. *)
Fixpoint run (schedule : list Choice) (p : Pool) : Pool :=
  match schedule with
  | [] => p
  | ch :: rest =>
      match step ch p with
      | Some p' => run rest p'
      | None => run rest p
      end
  end.

(** The pools a run can reach. *)
Inductive reachable : Pool -> Prop :=
| reachable_start : reachable start
| reachable_step ch p p' : reachable p -> step ch p = Some p' -> reachable p'.

(** The turns still to come are bounded by this number. *)
Definition chain_weight (c : Chain) : nat :=
  match c with
  | Processing _ => 2
  | CoolingDown => 1
  | Returned => 0
  end.

Definition main_weight (m : Main) : nat :=
  match m with
  | Seeding i => 2 + (seeds - i)
  | Joining => 1
  | Saved => 0
  end.

Definition turns_left (p : Pool) : nat :=
  3 * (length wallets - currentIndex p)
  + list_sum (map chain_weight (chains p))
  + main_weight (main p).

(** The wallets being processed. *)
Definition in_flight (cs : list Chain) : list nat :=
  flat_map (fun c => match c with Processing i => [i] | _ => [] end) cs.

End TaskPool.

(** The rows [processWallet] appends for one job. *)
Definition rows_of (v : Variant) (job : Job) : list WalletOutcome :=
  results (agent (snd (processWallet v (walletData job) (collaborators job)
                         {| agent := new_MindAgent; trace := []; calls := 0 |}))).

(** ** Reading traces, attempts and agents *)

(** The waits of a trace, in milliseconds. *)
Definition delays (tr : list Event) : list Z :=
  flat_map (fun ev => match ev with EvDelay ms => [ms] | _ => [] end) tr.

(** The transactions a trace submits. *)
Definition submitted (tr : list Event) : list TxObject :=
  flat_map (fun ev => match ev with EvSendTransaction tx => [tx] | _ => [] end) tr.

(** The contract calls a trace builds. *)
Definition populated (tr : list Event) : list (Z * list string) :=
  flat_map (fun ev => match ev with
                      | EvPopulateTransaction n pr => [(n, pr)]
                      | _ => []
                      end) tr.

(** The response an attempt succeeds with, if it succeeds: the request
    resolves to an object whose [code] is the number 0. *)
Definition attempt_response (a : Outcome (option Response)) : option Response :=
  match a with
  | Return (Some r) => if JS.strict_eq (code r) (JS.Num 0) then Some r else None
  | _ => None
  end.

(** The error the [catch] clause receives from an attempt that fails. *)
Definition attempt_error (a : Outcome (option Response)) : Err :=
  match a with
  | Throw e => e
  | Return None => TypeError "Cannot read properties of undefined (reading 'code')"
  | Return (Some r) => CodeError (code r)
  end.

(** The request is rejected with a nullish value: the [catch] clause
    cannot read [error.response]. *)
Definition rejects_nullish (a : Outcome (option Response)) : bool :=
  match a with
  | Throw e => nullish e
  | Return _ => false
  end.

(** The wait the [catch] clause inserts after failed attempt number
    [k >= 1] that failed with [e]: none when [e] is nullish, as the clause
    throws before it waits. *)
Definition wait_after (k : Z) (e : Err) : list Event :=
  if nullish e then []
  else if JS.strict_eq (response_status e) (JS.Num 429) then [EvDelay (5000 + k * 2000)]
  else if k <? maxRetries then [EvDelay (k * 1000)]
  else [].

Definition set_agent (a : Agent) (s : St) : St :=
  {| agent := a; trace := trace s; calls := calls s |}.

(** The agent [a0] with the counts, rows and total of [a] added. *)
Definition shift (a0 a : Agent) : Agent :=
  {| successCount := successCount a0 + successCount a;
     failCount := failCount a0 + failCount a;
     results := results a0 ++ results a;
     totalAmount := totalAmount a0 + totalAmount a |}.

(** A computation that leaves the agent alone. *)
Definition keeps_agent {A} (m : M A) : Prop :=
  forall s, agent (snd (m s)) = agent s.

(** A computation that does the same whatever the agent held before: run
    on an agent that already holds [a0], it adds to [a0] what it adds to
    any other agent. *)
Definition uniform {A} (m : M A) : Prop :=
  forall a0 s,
    m (set_agent (shift a0 (agent s)) s)
    = (fst (m s), set_agent (shift a0 (agent (snd (m s)))) (snd (m s))).

(** The rows of the wallet at index [i]. *)
Definition rows_at (v : Variant) (wallets : list Job) (i : nat) : list WalletOutcome :=
  match wallets !! i with
  | Some job => rows_of v job
  | None => []
  end.

(** Both collaborators of the job can be built. *)
Definition constructible (job : Job) : Prop :=
  new_RequestManager (collaborators job) = None
  /\ new_Wallet (collaborators job) = None.

(** A computation that throws error objects only, never [undefined] or
    [null]. *)
Definition throws_errors {A} (m : M A) : Prop :=
  forall s e s1, m s = (Throw e, s1) -> nullish e = false.

(** The collaborators whose errors reach the [catch] clause of
    [processWallet] as they are thrown (the wallet when it signs,
    [JSON.parse], the contract when it is built and when it populates the
    call) throw error objects. *)
Definition rejects_with_errors (c : Collaborators) : Prop :=
  (forall e, signMessage c = Throw e -> nullish e = false)
  /\ (forall x e, JSON_parse c x = Throw e -> nullish e = false)
  /\ (forall e, new_Contract c = Some e -> nullish e = false)
  /\ (forall n proof e, populateTransaction c n proof = Throw e -> nullish e = false).

(** What holds of every pool a run reaches: the cursor stays within the
    list; a chain has returned only once the cursor was at the end; every
    wallet before the cursor has settled or is in flight, once; the
    results are the rows of the settled wallets, in the order of
    completion; a chain was launched if any was to be; and the run is
    past [Promise.all] only when every chain has returned. *)
Definition pool_invariant (v : Variant) (wallets : list Job) (concurrentLimit : nat)
    (p : Pool) : Prop :=
  (currentIndex p <= length wallets)%nat
  /\ (In Returned (chains p) -> (length wallets <= currentIndex p)%nat)
  /\ Permutation (settled p ++ in_flight (chains p)) (seq 0 (currentIndex p))
  /\ results (pool_agent p) = flat_map (rows_at v wallets) (settled p)
  /\ ((0 < seeds wallets concurrentLimit)%nat -> chains p <> [])
  /\ (main p = Saved -> all_returned (chains p) = true).

(** The invariant of the counters. *)
Definition counted (a : Agent) : Prop :=
  successCount a + failCount a = Z.of_nat (length (results a)).

Definition fresh : St := {| agent := new_MindAgent; trace := []; calls := 0 |}.

(** The trace of [n] rounds of the retry loop that starts at call number
    [first] of [simpleRequest] with [retryCount]: each round is a request
    and, when it fails, the wait of its [catch] clause. *)
Fixpoint rounds_trace (v : Variant) (c : Collaborators) (address signature : string)
    (first : nat) (retryCount : Z) (n : nat) : list Event :=
  match n with
  | O => []
  | S n' =>
      EvSimpleRequest address signature (request_timeout v)
      :: match attempt_response (simpleRequest c first) with
         | Some _ => []
         | None => wait_after (retryCount + 1) (attempt_error (simpleRequest c first))
         end
      ++ rounds_trace v c address signature (S first) (retryCount + 1) n'
  end.

(** What [throw lastError] throws. *)
Definition thrown (lastError : option Err) : Err :=
  match lastError with
  | Some e => e
  | None => ThrownUndefined
  end.

(** The value of [lastError] after [n] failed rounds that started at call
    number [first]. *)
Definition last_error (c : Collaborators) (first : nat) (lastError : option Err)
    (n : nat) : option Err :=
  match n with
  | O => lastError
  | S m => Some (attempt_error (simpleRequest c (first + m)))
  end.

(** The first two steps of the pipeline: what the eligibility check of a
    wallet comes to. *)
Definition eligibility (v : Variant) (walletData : WalletData) (c : Collaborators)
    : M Response :=
  signature <~ createSignature c ;;
  checkEligibilityWithRetry v c (add walletData) signature.

(** A transaction object with the three fixed properties of
    [sendTransaction]. *)
Definition fixed_gas (tx : TxObject) : Prop :=
  tx !! "gasLimit" = Some (JS.Num 160000)
  /\ tx !! "gasPrice" = Some (JS.Big 1020000000)
  /\ tx !! "type" = Some (JS.Num 0).

(** A computation whose events all satisfy [P]. *)
Definition emits {A} (P : Event -> Prop) (m : M A) : Prop :=
  forall s, exists tr, trace (snd (m s)) = (trace s ++ tr)%list /\ Forall P tr.

Definition submits_fixed_gas (ev : Event) : Prop :=
  match ev with
  | EvSendTransaction tx => fixed_gas tx
  | _ => True
  end.

Definition no_transaction (ev : Event) : Prop :=
  match ev with
  | EvSendTransaction _ | EvPopulateTransaction _ _ => False
  | _ => True
  end.

(** The agent after one more row, counted as a failure or as a success. *)
Definition with_failure (row : WalletOutcome) (a : Agent) : Agent :=
  {| successCount := successCount a; failCount := failCount a + 1;
     results := results a ++ [row]; totalAmount := totalAmount a |}.

Definition with_success (row : WalletOutcome) (a : Agent) : Agent :=
  {| successCount := successCount a + 1; failCount := failCount a;
     results := results a ++ [row]; totalAmount := totalAmount a |}.

Definition with_total (n : Z) (a : Agent) : Agent :=
  {| successCount := successCount a; failCount := failCount a;
     results := results a; totalAmount := totalAmount a + n |}.

(** The row of a claim that was submitted and confirmed ([ok]) or
    reverted. *)
Definition claimed_row (walletData : WalletData) (amount : JS.value) (ok : bool)
    : WalletOutcome :=
  {| address := add walletData; amount := formatTokenAmount amount;
     status := Some (if ok then success else failed) |}.

(** The agent after a submitted claim. *)
Definition with_claim (walletData : WalletData) (amount : JS.value) (ok : bool)
    (n : Z) (a : Agent) : Agent :=
  with_total n
    ((if ok then with_success (claimed_row walletData amount ok)
      else with_failure (claimed_row walletData amount ok)) a).

(** The row of a wallet without a claimable amount, claim variant. *)
Definition no_eligibility_row (walletData : WalletData) : WalletOutcome :=
  {| address := add walletData; amount := "0"; status := Some no_eligibility |}.

(** The row of the check-only variant. *)
Definition checked_row (walletData : WalletData) (amount : string) : WalletOutcome :=
  {| address := add walletData; amount := amount; status := None |}.

(** ** Saving the results: [saveResults] *)

(** The line feed of the template literals. *)
Definition line_feed : string := String (ascii_of_nat 10) EmptyString.

(** [`${result.status}`]: the status as it is written, ["undefined"] for
    a row without the property. *)
Definition status_text (st : option Status) : string :=
  match st with
  | Some success => "success"
  | Some failed => "failed"
  | Some no_eligibility => "no_eligibility"
  | Some error => "error"
  | None => "undefined"
  end.

(** The first element of [csvContent], without its line feed. *)
Definition csv_header (v : Variant) : string :=
  match v with
  | ClaimV => "address,amount,status"
  | CheckV => "address,amount"
  end.

(** The element pushed for one row. *)
Definition csv_line (v : Variant) (row : WalletOutcome) : string :=
  match v with
  | ClaimV =>
      address row ++ "," ++ amount row ++ "," ++ status_text (status row) ++ line_feed
  | CheckV => address row ++ "," ++ amount row ++ line_feed
  end.

(** [csvContent.join('')] once the rows are pushed. *)
Definition csvContent (v : Variant) (rows : list WalletOutcome) : string :=
  fold_left (fun content row => content ++ csv_line v row) rows
    (csv_header v ++ line_feed).

Definition results_file (v : Variant) : string :=
  match v with
  | ClaimV => "claim_results.csv"
  | CheckV => "results.csv"
  end.

(** [saveResults], given what [writeFile] answers: the file it writes,
    and its completion; a failure of [writeFile] is logged, not thrown. *)
Definition saveResults (v : Variant) (writeFile : string -> string -> Outcome unit)
    (a : Agent) : (string * string) * Outcome unit :=
  let file := results_file v in
  let content := csvContent v (results a) in
  ((file, content),
   match writeFile file content with
   | Return _ => Return tt
   | Throw _ => Return tt
   end).

(** How often the character [c] occurs in [s]. *)
Fixpoint count_char (c : ascii) (s : string) : nat :=
  match s with
  | EmptyString => 0
  | String a s' => (if Ascii.eqb a c then 1 else 0) + count_char c s'
  end.

(** The row has no line feed and no comma in its address and amount. *)
Definition plain_row (row : WalletOutcome) : Prop :=
  count_char (ascii_of_nat 10) (address row) = 0%nat
  /\ count_char (ascii_of_nat 10) (amount row) = 0%nat
  /\ count_char "," (address row) = 0%nat
  /\ count_char "," (amount row) = 0%nat.

(** ** Further readings of traces and pools *)

(** The time a trace spends waiting, in milliseconds. *)
Definition total_wait (tr : list Event) : Z := fold_right Z.add 0 (delays tr).

(** The event, if it is a request, is made for [walletData] with the
    time-out of the variant. *)
Definition requests_as (v : Variant) (walletData : WalletData) (ev : Event) : Prop :=
  match ev with
  | EvSimpleRequest wallet _ timeout =>
      wallet = add walletData /\ timeout = request_timeout v
  | _ => True
  end.

(** The event, if it is a request, carries the signature the wallet of
    [c] gives. *)
Definition signed_by (c : Collaborators) (ev : Event) : Prop :=
  match ev with
  | EvSimpleRequest _ signature _ => signMessage c = Return signature
  | _ => True
  end.

(** The messages a trace has the wallet sign. *)
Definition signed (tr : list Event) : list string :=
  flat_map (fun ev => match ev with EvSignMessage message => [message] | _ => [] end) tr.

Definition no_signing (ev : Event) : Prop :=
  match ev with
  | EvSignMessage _ => False
  | _ => True
  end.

(** The rows the claim variant writes: a status always, and the amount
    ["0"] unless a transaction was submitted and its receipt read. *)
Definition claim_row (row : WalletOutcome) : Prop :=
  (status row = Some no_eligibility /\ amount row = "0")
  \/ (status row = Some error /\ amount row = "0")
  \/ status row = Some success
  \/ status row = Some failed.

(** The number of turns a run under [schedule] takes: the choices that
    were ready. *)
Fixpoint turns_taken (v : Variant) (wallets : list Job) (concurrentLimit : nat)
    (schedule : list Choice) (p : Pool) : nat :=
  match schedule with
  | [] => 0
  | ch :: rest =>
      match step v wallets concurrentLimit ch p with
      | Some p' => S (turns_taken v wallets concurrentLimit rest p')
      | None => turns_taken v wallets concurrentLimit rest p
      end
  end.

(** ** Concrete inputs *)

Definition wallet_1 : WalletData :=
  {| add := "0x1111111111111111111111111111111111111111";
     pk := "0x0000000000000000000000000000000000000000000000000000000000000001";
     proxy := "" |}.

(** Collaborators that all answer well, given the answers of the wallet
    constructor and of [simpleRequest]: the proof parses to an empty
    array, the transaction is built, sent and confirmed with [status]. *)
Definition answering (wallet : option Err)
    (requests : nat -> Outcome (option Response)) (status : JS.value)
    : Collaborators :=
  {| new_RequestManager := None;
     new_Wallet := wallet;
     signMessage := Return "0xsignature";
     simpleRequest := requests;
     JSON_parse := fun _ => Return (Some []);
     new_Contract := None;
     populateTransaction := fun _ _ => Return ∅;
     sendTransaction_answer := fun _ => Return tt;
     wait := Return (Some status) |}.

Definition granted (amount : JS.value) : Response :=
  {| code := JS.Num 0;
     data := Some {| data_amount := amount; data_proof := JS.Str "[]" |} |}.

(** The request manager rejects every request with HTTP 429. *)
Definition always_429 : Collaborators :=
  answering None
    (fun _ => Throw (LibraryError "Request failed with status code 429" (JS.Num 429)))
    (JS.Num 1).

(** The wallet cannot sign. *)
Definition signing_fails : Collaborators :=
  {| new_RequestManager := None;
     new_Wallet := None;
     signMessage := Throw (LibraryError "signing failed" JS.Undefined);
     simpleRequest := fun _ => Return (Some (granted (JS.Str "1000000000000000000")));
     JSON_parse := fun _ => Return (Some []);
     new_Contract := None;
     populateTransaction := fun _ _ => Return ∅;
     sendTransaction_answer := fun _ => Return tt;
     wait := Return (Some (JS.Num 1)) |}.

(** The wallet rejects the request to sign without a reason. *)
Definition signing_rejects_undefined : Collaborators :=
  {| new_RequestManager := None;
     new_Wallet := None;
     signMessage := Throw ThrownUndefined;
     simpleRequest := fun _ => Return (Some (granted (JS.Str "1000000000000000000")));
     JSON_parse := fun _ => Return (Some []);
     new_Contract := None;
     populateTransaction := fun _ _ => Return ∅;
     sendTransaction_answer := fun _ => Return tt;
     wait := Return (Some (JS.Num 1)) |}.

(** The first request is answered with [response]. *)
Definition answered (response : Response) : Collaborators :=
  answering None (fun _ => Return (Some response)) (JS.Num 1).

(** A response with code 0 and no [data]. *)
Definition no_data : Response := {| code := JS.Num 0; data := None |}.

(** A wallet whose private key ethers refuses. *)
Definition wallet_bad_key : Job :=
  {| walletData := {| add := "0x2222222222222222222222222222222222222222";
                      pk := "not-a-private-key"; proxy := "" |};
     collaborators :=
       answering (Some (LibraryError "invalid private key" JS.Undefined))
         (fun _ => Return (Some (granted (JS.Str "1000000000000000000"))))
         (JS.Num 1) |}.

(** A wallet with 1 token to claim. *)
Definition wallet_good : Job :=
  {| walletData := wallet_1;
     collaborators := answered (granted (JS.Str "1000000000000000000")) |}.

Definition bad_then_good : list Job := [wallet_bad_key; wallet_good].

(** A wallet that cannot sign, then a wallet with 1 token to claim. *)
Definition failing_then_good : list Job :=
  [{| walletData := wallet_1; collaborators := signing_fails |}; wallet_good].

(** A schedule that runs two wallets with two slots to the end. *)
Definition six_turns : list Choice :=
  [ResumeChain 0; ResumeMain; ResumeChain 1; ResumeChain 0; ResumeChain 1; ResumeMain].

(** Two wallets with 1 token to claim each. *)
Definition two_good : list Job := [wallet_good; wallet_good].

(** Four requests fail (a time-out, an error code, HTTP 429, an empty
    body), the fifth succeeds. *)
Definition fifth_time_lucky : Collaborators :=
  answering None
    (fun k => match k with
              | 0%nat => Throw (LibraryError "timeout of 15000ms exceeded" JS.Undefined)
              | 1%nat => Return (Some {| code := JS.Num 500; data := None |})
              | 2%nat => Throw (LibraryError "Request failed with status code 429" (JS.Num 429))
              | 3%nat => Return None
              | _ => Return (Some (granted (JS.Str "1000000000000000000")))
              end)
    (JS.Num 1).

(** The first request is rejected without a reason; every later one
    would be answered with code 0. *)
Definition undefined_then_good : Collaborators :=
  answering None
    (fun k => match k with
              | 0%nat => Throw ThrownUndefined
              | _ => Return (Some (granted (JS.Str "1000000000000000000")))
              end)
    (JS.Num 1).

(** Four requests are answered with the code 500, the fifth is rejected
    without a reason. *)
Definition four_failures_then_undefined : Collaborators :=
  answering None
    (fun k => if (k <? 4)%nat
              then Return (Some {| code := JS.Num 500; data := None |})
              else Throw ThrownUndefined)
    (JS.Num 1).

Definition entry_of_65_digits : string :=
  "fffffffffffffffffffffffffffffffffffffffffffffffffffffffffffffffff".

Definition entry_of_64_digits : string :=
  "00000000000000000000000000000000000000000000000000000000000000ff".

(** * Properties *)

(** ** Proof normalisation *)

Lemma length_append (s t : string) :
  String.length (s ++ t) = (String.length s + String.length t)%nat.
Proof. induction s as [|a s IH]; simpl; [reflexivity | now rewrite IH]. Qed.

Lemma filler_zero (n : nat) : JS.filler n "0" "0" = JS.repeat "0" n.
Proof.
  assert (H : forall n, JS.filler n "0" "" = JS.repeat "0" n).
  { intros m. induction m as [|m IH]; simpl; [reflexivity | now rewrite IH]. }
  destruct n as [|n]; simpl; [reflexivity | now rewrite H].
Qed.

Lemma length_repeat_zero (n : nat) : String.length (JS.repeat "0" n) = n.
Proof.
  induction n as [|n IH]; [reflexivity |].
  change (S (String.length (JS.repeat "0" n)) = S n). now rewrite IH.
Qed.

Lemma padStart_short (s : string) :
  (String.length s <= 64)%nat ->
  JS.padStart 64 "0" s = JS.repeat "0" (64 - String.length s) ++ s.
Proof.
  intros H. unfold JS.padStart.
  destruct (Nat.leb_spec 64 (String.length s)) as [Hge|Hlt].
  - replace (64 - String.length s)%nat with 0%nat by lia. reflexivity.
  - now rewrite filler_zero.
Qed.

Lemma padStart_long (n : nat) (pad s : string) :
  (n <= String.length s)%nat -> JS.padStart n pad s = s.
Proof.
  intros H. unfold JS.padStart.
  destruct (Nat.leb_spec n (String.length s)); [reflexivity | lia].
Qed.

Lemma length_padStart_short (s : string) :
  (String.length s <= 64)%nat -> String.length (JS.padStart 64 "0" s) = 64%nat.
Proof.
  intros H. rewrite padStart_short by exact H.
  rewrite length_append, length_repeat_zero. lia.
Qed.

(** An entry that carries the prefix loses it; any other entry is taken
    whole. *)
Lemma hexValue_prefixed (s : string) : hexValue ("0x" ++ s) = s.
Proof. reflexivity. Qed.

Lemma hexValue_formatProofEntry (p : string) :
  hexValue (formatProofEntry p) = paddedHex p.
Proof. reflexivity. Qed.

(** An entry longer than 64 characters is neither padded nor cut. *)
Lemma formatProofEntry_long (p : string) :
  (64 <= String.length (hexValue p))%nat ->
  formatProofEntry p = "0x" ++ hexValue p.
Proof.
  intros H. unfold formatProofEntry, paddedHex. now rewrite padStart_long.
Qed.

(** C7, as stated, fails: an entry of 65 hex digits keeps its 65 digits,
    so the normalised entry does not have exactly 64 characters after its
    prefix. *)
Lemma formatProofEntry_not_always_64 :
  formatProofEntry entry_of_65_digits = "0x" ++ entry_of_65_digits
  /\ String.length (paddedHex entry_of_65_digits) <> 64%nat.
Proof. split; [reflexivity | vm_compute; discriminate]. Qed.

(** C7, amended: for every proof entry whose part after the optional
    ["0x"] prefix has at most 64 characters, the normalisation in
    [buildClaimTx] strips the prefix, left-pads the rest with ["0"] to
    exactly 64 characters and puts ["0x"] in front. *)
Theorem formatProofEntry_pads_to_64 (p : string) :
  (String.length (hexValue p) <= 64)%nat ->
  formatProofEntry p
  = "0x" ++ JS.repeat "0" (64 - String.length (hexValue p)) ++ hexValue p
  /\ String.length (paddedHex p) = 64%nat.
Proof.
  intros H. unfold formatProofEntry, paddedHex. split.
  - now rewrite padStart_short.
  - now apply length_padStart_short.
Qed.

(** The entry ["abc"] of the specification. *)
Lemma formatProofEntry_pads_to_64_witness :
  (String.length (hexValue "abc") <= 64)%nat
  /\ formatProofEntry "abc" = "0x" ++ JS.repeat "0" 61 ++ "abc"
  /\ String.length (paddedHex "abc") = 64%nat.
Proof.
  split; [simpl; lia |].
  apply (formatProofEntry_pads_to_64 "abc"). simpl; lia.
Defined.

(** C10: the normalisation is idempotent on every entry whose part after
    the prefix has at most 64 characters, and an entry that is ["0x"]
    followed by exactly 64 hex characters is mapped to itself. *)
Theorem formatProofEntry_idempotent (p s : string) :
  (String.length (hexValue p) <= 64)%nat ->
  String.length s = 64%nat -> all_hex s = true ->
  formatProofEntry (formatProofEntry p) = formatProofEntry p
  /\ formatProofEntry ("0x" ++ s) = "0x" ++ s.
Proof.
  intros Hp Hs _. split.
  - unfold formatProofEntry at 1. unfold paddedHex at 1.
    rewrite hexValue_formatProofEntry.
    rewrite padStart_long; [reflexivity |].
    unfold paddedHex. rewrite length_padStart_short by exact Hp. lia.
  - unfold formatProofEntry, paddedHex. rewrite hexValue_prefixed.
    rewrite padStart_long; [reflexivity | lia].
Qed.

Lemma formatProofEntry_idempotent_witness :
  formatProofEntry (formatProofEntry "0xff") = formatProofEntry "0xff"
  /\ formatProofEntry ("0x" ++ entry_of_64_digits) = "0x" ++ entry_of_64_digits.
Proof.
  apply (formatProofEntry_idempotent "0xff" entry_of_64_digits);
    [simpl; lia | reflexivity | reflexivity].
Defined.

(** Without the bound on the length the normalisation is idempotent all
    the same. *)
Lemma formatProofEntry_idempotent_any (p : string) :
  formatProofEntry (formatProofEntry p) = formatProofEntry p.
Proof.
  unfold formatProofEntry at 1. unfold paddedHex at 1.
  rewrite hexValue_formatProofEntry.
  rewrite padStart_long; [reflexivity |].
  unfold paddedHex, JS.padStart.
  destruct (Nat.leb_spec 64 (String.length (hexValue p))) as [Hge|Hlt]; [exact Hge |].
  rewrite filler_zero, length_append, length_repeat_zero. lia.
Qed.

(** ** Amount formatting *)

(** C6, as stated, fails: the string ["0"] is not falsy, so it is
    converted and formatted like any other amount, and ethers writes the
    zero amount as ["0.0"]. *)
Lemma formatTokenAmount_zero_string :
  formatTokenAmount (JS.Str "0") = "0.0"
  /\ formatTokenAmount (JS.Str "0") <> "0".
Proof. split; [reflexivity | vm_compute; discriminate]. Qed.

(** C6, amended: [formatTokenAmount] applies 18-decimal scaling: the
    base-unit string ["1000000000000000000"] formats to ["1.0"], the
    string ["0"] formats to ["0.0"], and an absent ([null] or [undefined])
    or empty input formats to ["0"]. *)
Theorem formatTokenAmount_scaling :
  formatTokenAmount (JS.Str "1000000000000000000") = "1.0"
  /\ formatTokenAmount (JS.Str "0") = "0.0"
  /\ formatTokenAmount JS.Undefined = "0"
  /\ formatTokenAmount JS.Null = "0"
  /\ formatTokenAmount (JS.Str "") = "0".
Proof. repeat split; reflexivity. Qed.

(** A falsy amount is never converted; an amount that is no integer
    literal is caught and formats to ["0"] too. *)
Lemma formatTokenAmount_falsy (amount : JS.value) :
  JS.truthy amount = false -> formatTokenAmount amount = "0".
Proof. intros H. unfold formatTokenAmount. now rewrite H. Qed.

Lemma formatTokenAmount_not_a_number :
  formatTokenAmount (JS.Str "abc") = "0".
Proof. reflexivity. Qed.

(** ** The retry controller *)

Lemma strict_eq_num (x : JS.value) (n : Z) :
  JS.strict_eq x (JS.Num n) = true <-> x = JS.Num n.
Proof.
  destruct x; simpl; split; try discriminate; try congruence.
  - intros H. apply Z.eqb_eq in H. now subst.
  - intros H. injection H as ->. apply Z.eqb_refl.
Qed.

Lemma attempt_response_code (a : Outcome (option Response)) (r : Response) :
  attempt_response a = Some r -> a = Return (Some r) /\ code r = JS.Num 0.
Proof.
  destruct a as [[r'|]|e]; simpl; try discriminate.
  destruct (JS.strict_eq (code r') (JS.Num 0)) eqn:E; [|discriminate].
  intros H. injection H as <-. split; [reflexivity | now apply strict_eq_num].
Qed.

Lemma rejects_nullish_attempt_error (a : Outcome (option Response)) :
  nullish (attempt_error a) = rejects_nullish a.
Proof. now destruct a as [[r|]|e]. Qed.

Lemma rejects_nullish_inv (a : Outcome (option Response)) :
  rejects_nullish a = true ->
  attempt_response a = None /\ exists e, a = Throw e /\ nullish e = true.
Proof. destruct a as [[r|]|e]; cbn; try discriminate. eauto. Qed.

(** One round of the loop. *)
Lemma retry_loop_round rounds v c address signature retryCount lastError s :
  retryCount < maxRetries ->
  retry_loop (S rounds) v c address signature retryCount lastError s
  = let s1 := {| agent := agent s;
                 trace := trace s ++ [EvSimpleRequest address signature (request_timeout v)];
                 calls := S (calls s) |} in
    match attempt_response (simpleRequest c (calls s)) with
    | Some r => (Return r, s1)
    | None =>
        let e := attempt_error (simpleRequest c (calls s)) in
        if rejects_nullish (simpleRequest c (calls s))
        then (Throw (read_fault "response" e), s1)
        else
          retry_loop rounds v c address signature (retryCount + 1) (Some e)
            {| agent := agent s1;
               trace := trace s1 ++ wait_after (retryCount + 1) e;
               calls := calls s1 |}
    end.
Proof.
  intros Hlt. apply Z.ltb_lt in Hlt. cbn [retry_loop]. rewrite Hlt.
  unfold bind, try_catch, call_simpleRequest, read_property, wait_after, delay, emit,
    ret, throw.
  destruct (simpleRequest c (calls s)) as [[r|]|e];
    cbn [attempt_response attempt_error rejects_nullish].
  - destruct (JS.strict_eq (code r) (JS.Num 0)); [reflexivity |].
    cbn [nullish response_status JS.strict_eq].
    destruct (retryCount + 1 <? maxRetries); cbn; try rewrite app_nil_r; reflexivity.
  - cbn [nullish response_status JS.strict_eq].
    destruct (retryCount + 1 <? maxRetries); cbn; try rewrite app_nil_r; reflexivity.
  - destruct (nullish e); [reflexivity |].
    destruct (JS.strict_eq (response_status e) (JS.Num 429)).
    + reflexivity.
    + destruct (retryCount + 1 <? maxRetries); cbn; try rewrite app_nil_r; reflexivity.
Qed.

Lemma throw_last_thrown {A} (lastError : option Err) (s : St) :
  @throw_last A lastError s = (Throw (thrown lastError), s).
Proof. destruct lastError; reflexivity. Qed.

Lemma retry_loop_exit rounds v c address signature retryCount lastError s :
  maxRetries <= retryCount ->
  retry_loop rounds v c address signature retryCount lastError s
  = (Throw (thrown lastError), s).
Proof.
  intros H. apply Z.ltb_ge in H.
  destruct rounds; cbn [retry_loop]; rewrite H; apply throw_last_thrown.
Qed.

(** What the loop comes to: [n] requests were made, all but the last of
    which failed with an error that can be read.  The loop returns the
    response of a last request that succeeded; it throws either when all
    its rounds have failed, with the error of the last, or when the last
    request made was rejected with a nullish value, with the [TypeError]
    of the read. *)
Lemma retry_loop_spec v c address signature :
  forall rounds retryCount lastError s,
    0 <= retryCount ->
    rounds = Z.to_nat (maxRetries - retryCount) ->
    exists n : nat,
      (n <= rounds)%nat
      /\ calls (snd (retry_loop rounds v c address signature retryCount lastError s))
         = (calls s + n)%nat
      /\ agent (snd (retry_loop rounds v c address signature retryCount lastError s))
         = agent s
      /\ trace (snd (retry_loop rounds v c address signature retryCount lastError s))
         = (trace s ++ rounds_trace v c address signature (calls s) retryCount n)%list
      /\ (forall j, (j + 1 < n)%nat ->
                    attempt_response (simpleRequest c (calls s + j)) = None
                    /\ rejects_nullish (simpleRequest c (calls s + j)) = false)
      /\ match fst (retry_loop rounds v c address signature retryCount lastError s) with
         | Return r =>
             exists m, n = S m
                       /\ attempt_response (simpleRequest c (calls s + m)) = Some r
         | Throw e =>
             (n = rounds
              /\ (forall j, (j < n)%nat ->
                            attempt_response (simpleRequest c (calls s + j)) = None
                            /\ rejects_nullish (simpleRequest c (calls s + j)) = false)
              /\ e = thrown (last_error c (calls s) lastError n))
             \/ (exists m, n = S m
                           /\ rejects_nullish (simpleRequest c (calls s + m)) = true
                           /\ e = read_fault "response"
                                    (attempt_error (simpleRequest c (calls s + m))))
         end.
Proof.
  induction rounds as [|rounds IH]; intros retryCount lastError s Hge Hrounds.
  - exists 0%nat. rewrite retry_loop_exit by lia. cbn.
    rewrite Nat.add_0_r, app_nil_r.
    split; [lia |]. split; [reflexivity |]. split; [reflexivity |].
    split; [reflexivity |]. split; [intros; lia |].
    left. split; [reflexivity |]. split; [intros; lia | reflexivity].
  - assert (Hlt : retryCount < maxRetries) by lia.
    rewrite retry_loop_round by exact Hlt. cbv zeta.
    destruct (attempt_response (simpleRequest c (calls s))) as [r|] eqn:Hatt.
    + exists 1%nat. cbn [fst snd calls agent trace rounds_trace].
      rewrite Hatt. cbn [app].
      split; [lia |]. split; [lia |]. split; [reflexivity |].
      split; [reflexivity |]. split; [intros; lia |].
      exists 0%nat. split; [reflexivity |]. now rewrite Nat.add_0_r.
    + destruct (rejects_nullish (simpleRequest c (calls s))) eqn:Hnull.
      * exists 1%nat. cbn [fst snd calls agent trace rounds_trace].
        rewrite Hatt. unfold wait_after.
        rewrite rejects_nullish_attempt_error, Hnull. cbn [app].
        split; [lia |]. split; [lia |]. split; [reflexivity |].
        split; [reflexivity |]. split; [intros; lia |].
        right. exists 0%nat. rewrite Nat.add_0_r. auto.
      * set (e := attempt_error (simpleRequest c (calls s))).
        set (s2 := {| agent := _; trace := _; calls := _ |}).
        destruct (IH (retryCount + 1) (Some e) s2)
          as (n & Hn & Hcalls & Hagent & Htrace & Hfail & Hout); [lia | lia |].
        exists (S n). rewrite Hcalls, Hagent, Htrace.
        cbn [rounds_trace]. rewrite Hatt. subst s2. cbn [calls agent trace].
        assert (Hshift : forall j,
                   (calls s + S j)%nat = (S (calls s) + j)%nat) by (intros; lia).
        split; [lia |]. split; [lia |]. split; [reflexivity |].
        split; [fold e; rewrite <- !app_assoc; reflexivity |].
        split.
        -- intros j Hj. destruct j as [|j]; [now rewrite Nat.add_0_r |].
           rewrite Hshift. apply Hfail. lia.
        -- destruct (fst _) as [r|e'].
           ++ destruct Hout as (m & -> & Hm). exists (S m). split; [reflexivity |].
              now rewrite Hshift.
           ++ destruct Hout as [(-> & Hall & He) | (m & -> & Hm & He)].
              ** left. split; [reflexivity |]. split.
                 --- intros j Hj. destruct j as [|j]; [now rewrite Nat.add_0_r |].
                     rewrite Hshift. apply Hall. lia.
                 --- rewrite He. cbn [calls].
                     destruct rounds as [|m]; cbn [last_error thrown].
                     +++ subst e. now rewrite Nat.add_0_r.
                     +++ now rewrite Hshift.
              ** right. exists (S m). rewrite Hshift. auto.
Qed.

(** More rounds than [maxRetries - retryCount] change nothing: the loop
    never runs out of rounds while its test holds. *)
Lemma retry_loop_rounds v c address signature :
  forall rounds extra retryCount lastError s,
    (Z.to_nat (maxRetries - retryCount) <= rounds)%nat ->
    retry_loop (rounds + extra) v c address signature retryCount lastError s
    = retry_loop rounds v c address signature retryCount lastError s.
Proof.
  induction rounds as [|rounds IH]; intros extra retryCount lastError s Hrounds.
  - rewrite !retry_loop_exit by lia. reflexivity.
  - destruct (Z.lt_ge_cases retryCount maxRetries) as [Hlt|Hge].
    + cbn [Nat.add]. rewrite !retry_loop_round by exact Hlt. cbv zeta.
      destruct (attempt_response (simpleRequest c (calls s))); [reflexivity |].
      destruct (rejects_nullish (simpleRequest c (calls s))); [reflexivity |].
      apply IH. lia.
    + rewrite !retry_loop_exit by lia. reflexivity.
Qed.

(** C2, amended: [checkEligibilityWithRetry] makes at most 5 attempts, each but
    the last a failure whose error the [catch] clause can read.  It
    returns the response of the first attempt that resolves to a response
    whose [code] is 0 (a response with another code is a failed attempt),
    and what it returns is always such a response.  It throws in two
    cases: when 5 attempts have failed, it throws the error of the fifth
    and makes no sixth attempt; and when a request is rejected with
    [undefined] or [null], the read of [error.response] in the [catch]
    clause throws, and the controller ends at once with that [TypeError],
    whatever the later requests would have answered. *)
Theorem checkEligibilityWithRetry_at_most_5_attempts
    (v : Variant) (c : Collaborators) (address signature : string) (s : St) :
  exists n : nat,
    (1 <= n <= 5)%nat
    /\ calls (snd (checkEligibilityWithRetry v c address signature s)) = (calls s + n)%nat
    /\ (forall j, (j + 1 < n)%nat ->
                  attempt_response (simpleRequest c (calls s + j)) = None
                  /\ rejects_nullish (simpleRequest c (calls s + j)) = false)
    /\ match fst (checkEligibilityWithRetry v c address signature s) with
       | Return r =>
           code r = JS.Num 0
           /\ simpleRequest c (calls s + (n - 1)) = Return (Some r)
       | Throw e =>
           (n = 5%nat
            /\ (forall j, (j < 5)%nat ->
                          attempt_response (simpleRequest c (calls s + j)) = None
                          /\ rejects_nullish (simpleRequest c (calls s + j)) = false)
            /\ e = attempt_error (simpleRequest c (calls s + 4)))
           \/ (exists e0,
                  simpleRequest c (calls s + (n - 1)) = Throw e0
                  /\ nullish e0 = true
                  /\ e = read_fault "response" e0)
       end.
Proof.
  unfold checkEligibilityWithRetry.
  destruct (retry_loop_spec v c address signature (Z.to_nat maxRetries) 0 None s)
    as (n & Hn & Hcalls & _ & _ & Hfail & Hout); [lia | reflexivity |].
  change (Z.to_nat maxRetries) with 5%nat in *.
  exists n. rewrite Hcalls.
  destruct (fst _) as [r|e].
  - destruct Hout as (m & -> & Hm).
    apply attempt_response_code in Hm as [Hm Hcode].
    replace (S m - 1)%nat with m by lia.
    split; [lia |]. split; [reflexivity |]. split; [exact Hfail |]. now split.
  - destruct Hout as [(-> & Hall & He) | (m & -> & Hm & He)].
    + split; [lia |]. split; [reflexivity |]. split; [exact Hfail |].
      left. split; [reflexivity |]. now split.
    + split; [lia |]. split; [reflexivity |]. split; [exact Hfail |].
      right. replace (S m - 1)%nat with m by lia.
      apply rejects_nullish_inv in Hm as (_ & e0 & He0 & Hnull).
      exists e0. rewrite He0 in He |- *. auto.
Qed.

Lemma checkEligibilityWithRetry_at_most_5_attempts_witness :
  exists n : nat,
    (1 <= n <= 5)%nat
    /\ calls (snd (checkEligibilityWithRetry ClaimV fifth_time_lucky "0x1" "0xsig" fresh))
       = (calls fresh + n)%nat
    /\ (forall j, (j + 1 < n)%nat ->
                  attempt_response (simpleRequest fifth_time_lucky (calls fresh + j)) = None
                  /\ rejects_nullish (simpleRequest fifth_time_lucky (calls fresh + j)) = false)
    /\ match fst (checkEligibilityWithRetry ClaimV fifth_time_lucky "0x1" "0xsig" fresh) with
       | Return r =>
           code r = JS.Num 0
           /\ simpleRequest fifth_time_lucky (calls fresh + (n - 1)) = Return (Some r)
       | Throw e =>
           (n = 5%nat
            /\ (forall j, (j < 5)%nat ->
                          attempt_response (simpleRequest fifth_time_lucky (calls fresh + j))
                          = None
                          /\ rejects_nullish (simpleRequest fifth_time_lucky (calls fresh + j))
                             = false)
            /\ e = attempt_error (simpleRequest fifth_time_lucky (calls fresh + 4)))
           \/ (exists e0,
                  simpleRequest fifth_time_lucky (calls fresh + (n - 1)) = Throw e0
                  /\ nullish e0 = true
                  /\ e = read_fault "response" e0)
       end.
Proof.
  exact (checkEligibilityWithRetry_at_most_5_attempts
           ClaimV fifth_time_lucky "0x1" "0xsig" fresh).
Defined.

(** C2, as stated, fails when a request is rejected with [undefined].
    After four attempts answered with the code 500 and a fifth one
    rejected with [undefined], all 5 attempts have failed and the
    controller throws a [TypeError], not the last error it observed.  And
    a first request rejected with [undefined] ends the controller after
    one attempt, with no wait and no retry, though the second request
    would have been answered with code 0. *)
Lemma checkEligibilityWithRetry_stops_at_undefined_rejection :
  (forall j, (j < 5)%nat ->
             attempt_response (simpleRequest four_failures_then_undefined j) = None)
  /\ attempt_error (simpleRequest four_failures_then_undefined 4) = ThrownUndefined
  /\ calls (snd (checkEligibilityWithRetry ClaimV four_failures_then_undefined
                   "0x1" "0xsig" fresh)) = 5%nat
  /\ fst (checkEligibilityWithRetry ClaimV four_failures_then_undefined "0x1" "0xsig" fresh)
     = Throw (TypeError "Cannot read properties of undefined (reading 'response')")
  /\ fst (checkEligibilityWithRetry ClaimV undefined_then_good "0x1" "0xsig" fresh)
     = Throw (TypeError "Cannot read properties of undefined (reading 'response')")
  /\ calls (snd (checkEligibilityWithRetry ClaimV undefined_then_good "0x1" "0xsig" fresh))
     = 1%nat
  /\ delays (trace (snd (checkEligibilityWithRetry ClaimV undefined_then_good
                           "0x1" "0xsig" fresh))) = []
  /\ attempt_response (simpleRequest undefined_then_good 1)
     = Some (granted (JS.Str "1000000000000000000")).
Proof.
  split; [| repeat split].
  intros j Hj. do 5 (destruct j as [|j]; [reflexivity |]). lia.
Qed.

Example fifth_time_lucky_returns :
  fst (checkEligibilityWithRetry ClaimV fifth_time_lucky "0x1" "0xsig" fresh)
  = Return (granted (JS.Str "1000000000000000000"))
  /\ calls (snd (checkEligibilityWithRetry ClaimV fifth_time_lucky "0x1" "0xsig" fresh)) = 5%nat
  /\ delays (trace (snd (checkEligibilityWithRetry ClaimV fifth_time_lucky "0x1" "0xsig" fresh)))
     = [1000; 2000; 11000; 4000].
Proof. repeat split. Qed.

(** The requests and waits of the controller, round by round. *)
Lemma checkEligibilityWithRetry_trace
    (v : Variant) (c : Collaborators) (address signature : string) (s : St) :
  exists n : nat,
    (n <= 5)%nat
    /\ calls (snd (checkEligibilityWithRetry v c address signature s)) = (calls s + n)%nat
    /\ agent (snd (checkEligibilityWithRetry v c address signature s)) = agent s
    /\ trace (snd (checkEligibilityWithRetry v c address signature s))
       = (trace s ++ rounds_trace v c address signature (calls s) 0 n)%list.
Proof.
  unfold checkEligibilityWithRetry.
  destruct (retry_loop_spec v c address signature (Z.to_nat maxRetries) 0 None s)
    as (n & Hn & Hcalls & Hagent & Htrace & _); [lia | reflexivity |].
  exists n. auto.
Qed.

Lemma wait_after_429 (k : Z) (e : Err) :
  response_status e = JS.Num 429 -> wait_after k e = [EvDelay (5000 + k * 2000)].
Proof.
  intros H. destruct e; cbn in H; try discriminate.
  unfold wait_after. cbn [nullish response_status]. now rewrite H.
Qed.

Lemma wait_after_other (k : Z) (e : Err) :
  nullish e = false -> response_status e <> JS.Num 429 -> k < 5 ->
  wait_after k e = [EvDelay (k * 1000)].
Proof.
  intros Hnull H Hk. unfold wait_after. rewrite Hnull.
  destruct (JS.strict_eq _ _) eqn:E; [now apply strict_eq_num in E |].
  unfold maxRetries. destruct (Z.ltb_spec k 5); [reflexivity | lia].
Qed.

Lemma wait_after_last_other (e : Err) :
  response_status e <> JS.Num 429 -> wait_after 5 e = [].
Proof.
  intros H. unfold wait_after. destruct (nullish e); [reflexivity |].
  destruct (JS.strict_eq _ _) eqn:E; [now apply strict_eq_num in E | reflexivity].
Qed.

Lemma wait_after_nullish (k : Z) (e : Err) : nullish e = true -> wait_after k e = [].
Proof. intros H. unfold wait_after. now rewrite H. Qed.

(** C3: when every request is rejected with HTTP 429, the controller
    makes its 5 attempts and waits after each of them, the fifth
    included: 15000 ms pass between the last attempt and the throw of its
    error, where the claim has the error propagated with no wait (as the
    branch for the other failures does, see [wait_after_last_other]). *)
Theorem checkEligibilityWithRetry_waits_after_last_429 :
  fst (checkEligibilityWithRetry ClaimV always_429 "0x1" "0xsig" fresh)
  = Throw (LibraryError "Request failed with status code 429" (JS.Num 429))
  /\ calls (snd (checkEligibilityWithRetry ClaimV always_429 "0x1" "0xsig" fresh)) = 5%nat
  /\ delays (trace (snd (checkEligibilityWithRetry ClaimV always_429 "0x1" "0xsig" fresh)))
     = [7000; 9000; 11000; 13000; 15000]
  /\ last (trace (snd (checkEligibilityWithRetry ClaimV always_429 "0x1" "0xsig" fresh)))
     = Some (EvDelay 15000).
Proof. repeat split. Qed.

(** ** Computations and the agent *)

(** The stages before the rows are written leave the agent alone. *)

Create HintDb agent.

Section Combinators.

Context {A B : Type}.

Lemma keeps_ret (a : A) : keeps_agent (ret a).
Proof. intros s. reflexivity. Qed.

Lemma keeps_throw (e : Err) : keeps_agent (@throw A e).
Proof. intros s. reflexivity. Qed.

Lemma keeps_lift (o : Outcome A) : keeps_agent (lift o).
Proof. intros s. reflexivity. Qed.

Lemma keeps_throw_last (le : option Err) : keeps_agent (@throw_last A le).
Proof. destruct le; intros s; reflexivity. Qed.

Lemma keeps_bind (m : M A) (k : A -> M B) :
  keeps_agent m -> (forall a, keeps_agent (k a)) -> keeps_agent (bind m k).
Proof.
  intros Hm Hk s. unfold bind. specialize (Hm s).
  destruct (m s) as [[a|e] s1]; cbn [snd] in *; [|exact Hm].
  now rewrite Hk.
Qed.

Lemma keeps_try_catch (body : M A) (handler : Err -> M A) :
  keeps_agent body -> (forall e, keeps_agent (handler e)) ->
  keeps_agent (try_catch body handler).
Proof.
  intros Hm Hk s. unfold try_catch. specialize (Hm s).
  destruct (body s) as [[a|e] s1]; cbn [snd] in *; [exact Hm|].
  now rewrite Hk.
Qed.

End Combinators.

Lemma keeps_emit (ev : Event) : keeps_agent (emit ev).
Proof. intros s. reflexivity. Qed.

Lemma keeps_construct (answer : option Err) : keeps_agent (construct answer).
Proof. destruct answer; intros s; reflexivity. Qed.

Lemma keeps_call_simpleRequest v c wallet signature :
  keeps_agent (call_simpleRequest v c wallet signature).
Proof. intros s. reflexivity. Qed.

Lemma keeps_read_property property err : keeps_agent (read_property property err).
Proof. unfold read_property. destruct (nullish err); intros s; reflexivity. Qed.

#[local] Hint Resolve keeps_ret keeps_throw keeps_lift keeps_throw_last keeps_bind
  keeps_try_catch keeps_emit keeps_construct keeps_call_simpleRequest
  keeps_read_property : agent.
#[local] Hint Extern 3 (keeps_agent (match ?x with _ => _ end)) => destruct x : agent.
#[local] Hint Extern 1 (keeps_agent (delay _)) => unfold delay : agent.

Lemma keeps_retry_loop v c address signature :
  forall rounds retryCount lastError,
    keeps_agent (retry_loop rounds v c address signature retryCount lastError).
Proof.
  induction rounds as [|rounds IH]; intros retryCount lastError; cbn [retry_loop].
  - destruct (retryCount <? maxRetries); auto with agent.
  - destruct (retryCount <? maxRetries); auto 10 with agent.
Qed.

Lemma keeps_createSignature c : keeps_agent (createSignature c).
Proof. unfold createSignature. auto with agent. Qed.

Lemma keeps_checkEligibilityWithRetry v c address signature :
  keeps_agent (checkEligibilityWithRetry v c address signature).
Proof. apply keeps_retry_loop. Qed.

Lemma keeps_buildClaimTx c amount proof : keeps_agent (buildClaimTx c amount proof).
Proof. unfold buildClaimTx. auto 10 with agent. Qed.

Lemma keeps_sendTransaction c txData : keeps_agent (sendTransaction c txData).
Proof. unfold sendTransaction. auto 12 with agent. Qed.

(** *** Uniformity *)

Lemma shift_assoc (a0 a1 a : Agent) : shift a0 (shift a1 a) = shift (shift a0 a1) a.
Proof. unfold shift; cbn. f_equal; try lia. apply app_assoc. Qed.

Lemma shift_new_l (a : Agent) : shift new_MindAgent a = a.
Proof. destruct a; unfold shift; cbn. f_equal; lia. Qed.

Section Uniform.

Context {A B : Type}.

Lemma uniform_ret (a : A) : uniform (ret a).
Proof. intros a0 s. reflexivity. Qed.

Lemma uniform_throw (e : Err) : uniform (@throw A e).
Proof. intros a0 s. reflexivity. Qed.

Lemma uniform_lift (o : Outcome A) : uniform (lift o).
Proof. intros a0 s. reflexivity. Qed.

Lemma uniform_throw_last (le : option Err) : uniform (@throw_last A le).
Proof. destruct le; intros a0 s; reflexivity. Qed.

Lemma uniform_bind (m : M A) (k : A -> M B) :
  uniform m -> (forall a, uniform (k a)) -> uniform (bind m k).
Proof.
  intros Hm Hk a0 s. unfold bind. rewrite (Hm a0 s).
  destruct (m s) as [[a|e] s1]; cbn [fst snd]; [|reflexivity].
  rewrite (Hk a a0 s1). now destruct (k a s1).
Qed.

Lemma uniform_try_catch (body : M A) (handler : Err -> M A) :
  uniform body -> (forall e, uniform (handler e)) -> uniform (try_catch body handler).
Proof.
  intros Hm Hk a0 s. unfold try_catch. rewrite (Hm a0 s).
  destruct (body s) as [[a|e] s1]; cbn [fst snd]; [reflexivity|].
  rewrite (Hk e a0 s1). now destruct (handler e s1).
Qed.

End Uniform.

Lemma uniform_emit (ev : Event) : uniform (emit ev).
Proof. intros a0 s. reflexivity. Qed.

Lemma uniform_construct (answer : option Err) : uniform (construct answer).
Proof. destruct answer; intros a0 s; reflexivity. Qed.

Lemma uniform_call_simpleRequest v c wallet signature :
  uniform (call_simpleRequest v c wallet signature).
Proof. intros a0 s. reflexivity. Qed.

Lemma uniform_modify (f : Agent -> Agent) :
  (forall a0 a, f (shift a0 a) = shift a0 (f a)) -> uniform (modify f).
Proof. intros Hf a0 s. unfold modify, set_agent. cbn. now rewrite Hf. Qed.

Lemma uniform_push (row : WalletOutcome) : uniform (push row).
Proof.
  apply uniform_modify. intros a0 a. unfold shift; cbn. f_equal. now rewrite app_assoc.
Qed.

Lemma uniform_incr_successCount : uniform incr_successCount.
Proof. apply uniform_modify. intros a0 a. unfold shift; cbn. f_equal. lia. Qed.

Lemma uniform_incr_failCount : uniform incr_failCount.
Proof. apply uniform_modify. intros a0 a. unfold shift; cbn. f_equal. lia. Qed.

Lemma uniform_read_property property err : uniform (read_property property err).
Proof. unfold read_property. destruct (nullish err); intros a0 s; reflexivity. Qed.

#[local] Hint Resolve uniform_ret uniform_throw uniform_lift uniform_throw_last
  uniform_bind uniform_try_catch uniform_emit uniform_construct
  uniform_call_simpleRequest uniform_push uniform_incr_successCount
  uniform_incr_failCount uniform_read_property : agent.
#[local] Hint Extern 3 (uniform (match ?x with _ => _ end)) => destruct x : agent.
#[local] Hint Extern 1 (uniform (delay _)) => unfold delay : agent.

Lemma uniform_add_totalAmount (amount : JS.value) : uniform (add_totalAmount amount).
Proof.
  unfold add_totalAmount. apply uniform_bind; [auto with agent |].
  intros n. apply uniform_modify. intros a0 a. unfold shift; cbn. f_equal. lia.
Qed.

#[local] Hint Resolve uniform_add_totalAmount : agent.

Lemma uniform_retry_loop v c address signature :
  forall rounds retryCount lastError,
    uniform (retry_loop rounds v c address signature retryCount lastError).
Proof.
  induction rounds as [|rounds IH]; intros retryCount lastError; cbn [retry_loop].
  - destruct (retryCount <? maxRetries); auto with agent.
  - destruct (retryCount <? maxRetries); auto 10 with agent.
Qed.

Lemma uniform_checkEligibilityWithRetry v c address signature :
  uniform (checkEligibilityWithRetry v c address signature).
Proof. apply uniform_retry_loop. Qed.

Lemma uniform_createSignature c : uniform (createSignature c).
Proof. unfold createSignature. auto with agent. Qed.

Lemma uniform_buildClaimTx c amount proof : uniform (buildClaimTx c amount proof).
Proof. unfold buildClaimTx. auto 10 with agent. Qed.

Lemma uniform_sendTransaction c txData : uniform (sendTransaction c txData).
Proof. unfold sendTransaction. auto 12 with agent. Qed.

#[local] Hint Resolve uniform_checkEligibilityWithRetry uniform_createSignature
  uniform_buildClaimTx uniform_sendTransaction : agent.

Lemma uniform_pipeline v walletData c : uniform (pipeline v walletData c).
Proof.
  destruct v; unfold pipeline, pipeline_claim, pipeline_check.
  - apply uniform_bind; [auto with agent | intros signature].
    apply uniform_bind; [auto with agent | intros response].
    unfold claim_response.
    destruct (no_claimable response); [auto with agent |].
    destruct (data response); auto 12 with agent.
  - apply uniform_bind; [auto with agent | intros signature].
    apply uniform_bind; [auto with agent | intros response].
    unfold check_response.
    destruct (data response); auto 12 with agent.
Qed.

Lemma uniform_processWallet v walletData c : uniform (processWallet v walletData c).
Proof.
  unfold processWallet. pose proof (uniform_pipeline v walletData c).
  auto 10 with agent.
Qed.

(** Run on an agent [a], [processWallet] adds to [a] what it adds to a
    fresh agent. *)
Lemma processWallet_shift v walletData c (a : Agent) :
  agent (snd (processWallet v walletData c {| agent := a; trace := []; calls := 0 |}))
  = shift a (agent (snd (processWallet v walletData c fresh))).
Proof.
  pose proof (uniform_processWallet v walletData c a fresh) as H.
  unfold set_agent in H. cbn [agent trace calls fresh] in H.
  assert (Ha : shift a new_MindAgent = a).
  { destruct a; unfold shift; cbn. f_equal; try lia. apply app_nil_r. }
  rewrite Ha in H. unfold fresh. rewrite H. reflexivity.
Qed.

(** *** Events *)

Section Emits.

Context {A B : Type}.
Variable P : Event -> Prop.

Lemma emits_silent (m : M A) :
  (forall s, trace (snd (m s)) = trace s) -> emits P m.
Proof. intros H s. exists []. rewrite H, app_nil_r. auto. Qed.

Lemma emits_ret (a : A) : emits P (ret a).
Proof. now apply emits_silent. Qed.

Lemma emits_throw (e : Err) : emits P (@throw A e).
Proof. now apply emits_silent. Qed.

Lemma emits_lift (o : Outcome A) : emits P (lift o).
Proof. now apply emits_silent. Qed.

Lemma emits_throw_last (le : option Err) : emits P (@throw_last A le).
Proof. apply emits_silent. now destruct le. Qed.

Lemma emits_bind (m : M A) (k : A -> M B) :
  emits P m -> (forall a, emits P (k a)) -> emits P (bind m k).
Proof.
  intros Hm Hk s. unfold bind. destruct (Hm s) as (tr1 & Htr1 & HP1).
  destruct (m s) as [[a|e] s1]; cbn [snd] in *; [|eauto].
  destruct (Hk a s1) as (tr2 & Htr2 & HP2).
  exists (tr1 ++ tr2)%list. rewrite Htr2, Htr1, app_assoc. split; [reflexivity |].
  apply Forall_app; auto.
Qed.

Lemma emits_try_catch (body : M A) (handler : Err -> M A) :
  emits P body -> (forall e, emits P (handler e)) -> emits P (try_catch body handler).
Proof.
  intros Hm Hk s. unfold try_catch. destruct (Hm s) as (tr1 & Htr1 & HP1).
  destruct (body s) as [[a|e] s1]; cbn [snd] in *; [eauto|].
  destruct (Hk e s1) as (tr2 & Htr2 & HP2).
  exists (tr1 ++ tr2)%list. rewrite Htr2, Htr1, app_assoc. split; [reflexivity |].
  apply Forall_app; auto.
Qed.

Lemma emits_bind_return (a : A) (k : A -> M B) :
  emits P (k a) -> emits P (bind (lift (Return a)) k).
Proof. intros H s. exact (H s). Qed.

End Emits.

Lemma emits_emit P (ev : Event) : P ev -> emits P (emit ev).
Proof. intros H s. exists [ev]. split; [reflexivity | auto]. Qed.

Lemma emits_modify P (f : Agent -> Agent) : emits P (modify f).
Proof. now apply emits_silent. Qed.

Lemma emits_construct P (answer : option Err) : emits P (construct answer).
Proof. apply emits_silent. now destruct answer. Qed.

Lemma emits_call_simpleRequest P v c wallet signature :
  P (EvSimpleRequest wallet signature (request_timeout v)) ->
  emits P (call_simpleRequest v c wallet signature).
Proof. intros H s. exists [EvSimpleRequest wallet signature (request_timeout v)]. auto. Qed.

Lemma emits_add_totalAmount P (amount : JS.value) : emits P (add_totalAmount amount).
Proof.
  unfold add_totalAmount. apply emits_bind; [apply emits_lift |].
  intros n. apply emits_modify.
Qed.

Lemma emits_read_property P property err : emits P (read_property property err).
Proof. apply emits_silent. intros s. unfold read_property. now destruct (nullish err). Qed.

Lemma gasPrice_value : ethers.parseUnits "1.02" ethers.gwei = Return 1020000000.
Proof. reflexivity. Qed.

Lemma fixed_gas_tx_request (txData : TxObject) :
  fixed_gas (tx_request txData 1020000000).
Proof.
  unfold fixed_gas, tx_request. repeat split.
  - rewrite lookup_insert_ne by discriminate.
    rewrite lookup_insert_ne by discriminate. apply lookup_insert_eq.
  - rewrite lookup_insert_ne by discriminate. apply lookup_insert_eq.
  - apply lookup_insert_eq.
Qed.

#[local] Hint Resolve emits_ret emits_throw emits_lift emits_throw_last emits_bind
  emits_try_catch emits_emit emits_modify emits_construct emits_call_simpleRequest
  emits_add_totalAmount emits_read_property fixed_gas_tx_request : agent.
#[local] Hint Extern 3 (emits _ (match ?x with _ => _ end)) => destruct x : agent.
#[local] Hint Extern 1 (emits _ (delay _)) => unfold delay : agent.
#[local] Hint Extern 1 (emits _ (push _)) => unfold push : agent.
#[local] Hint Extern 1 (emits _ incr_successCount) => unfold incr_successCount : agent.
#[local] Hint Extern 1 (emits _ incr_failCount) => unfold incr_failCount : agent.
#[local] Hint Extern 1 (no_transaction _) => exact I : agent.
#[local] Hint Extern 1 (submits_fixed_gas _) => first [exact I | cbn; apply fixed_gas_tx_request] : agent.

Lemma emits_retry_loop P v c address signature :
  P (EvSimpleRequest address signature (request_timeout v)) ->
  (forall ms, P (EvDelay ms)) ->
  forall rounds retryCount lastError,
    emits P (retry_loop rounds v c address signature retryCount lastError).
Proof.
  intros Hreq Hdelay.
  induction rounds as [|rounds IH]; intros retryCount lastError; cbn [retry_loop].
  - destruct (retryCount <? maxRetries); auto with agent.
  - destruct (retryCount <? maxRetries); auto 10 with agent.
Qed.

Lemma emits_eligibility P v walletData c :
  P (EvSignMessage sign_message) ->
  (forall signature, P (EvSimpleRequest (add walletData) signature (request_timeout v))) ->
  (forall ms, P (EvDelay ms)) ->
  emits P (eligibility v walletData c).
Proof.
  intros Hsign Hreq Hdelay. unfold eligibility, createSignature.
  apply emits_bind; [auto with agent |].
  intros signature. apply emits_retry_loop; auto.
Qed.

Lemma emits_buildClaimTx c amount proof :
  emits submits_fixed_gas (buildClaimTx c amount proof).
Proof. unfold buildClaimTx. auto 10 with agent. Qed.

Lemma emits_sendTransaction c txData :
  emits submits_fixed_gas (sendTransaction c txData).
Proof.
  unfold sendTransaction. rewrite gasPrice_value.
  apply emits_try_catch; [| auto with agent].
  apply emits_bind_return. auto 12 with agent.
Qed.

(** ** The wallet pipeline *)

Lemma pipeline_eligibility (v : Variant) (walletData : WalletData) (c : Collaborators) (s : St) :
  pipeline v walletData c s
  = bind (eligibility v walletData c)
      (match v with
       | ClaimV => claim_response walletData c
       | CheckV => check_response walletData
       end) s.
Proof.
  destruct v; unfold pipeline, pipeline_claim, pipeline_check, eligibility, bind;
    destruct (createSignature c s) as [[sig|e] s1]; reflexivity.
Qed.

Lemma keeps_eligibility v walletData c : keeps_agent (eligibility v walletData c).
Proof.
  unfold eligibility. apply keeps_bind; [apply keeps_createSignature |].
  intros signature. apply keeps_checkEligibilityWithRetry.
Qed.

(** The response the controller returns has code 0. *)
Lemma checkEligibilityWithRetry_code v c address signature s r :
  fst (checkEligibilityWithRetry v c address signature s) = Return r ->
  code r = JS.Num 0.
Proof.
  unfold checkEligibilityWithRetry. intros H.
  destruct (retry_loop_spec v c address signature (Z.to_nat maxRetries) 0 None s)
    as (n & _ & _ & _ & _ & _ & Hout); [lia | reflexivity |].
  rewrite H in Hout. destruct Hout as (m & _ & Hm).
  now apply attempt_response_code in Hm.
Qed.

Lemma eligibility_code v walletData c s r :
  fst (eligibility v walletData c s) = Return r -> code r = JS.Num 0.
Proof.
  unfold eligibility, bind. destruct (createSignature c s) as [[sig|e] s1]; [|discriminate].
  apply checkEligibilityWithRetry_code.
Qed.

(** A transaction is built only from an amount that converts. *)
Lemma buildClaimTx_returns c amount proof s txData :
  fst (buildClaimTx c amount proof s) = Return txData ->
  exists formatted n,
    new_Contract c = None
    /\ formattedProof proof = Return formatted
    /\ BigInt.of_value amount = Return n
    /\ populateTransaction c n formatted = Return txData.
Proof.
  unfold buildClaimTx, try_catch, bind, construct, lift, emit, ret, throw.
  destruct (new_Contract c); [discriminate |].
  destruct (formattedProof proof) as [formatted|]; [|discriminate].
  destruct (BigInt.of_value amount) as [n|]; [|discriminate].
  cbn. destruct (populateTransaction c n formatted) eqn:E; [|discriminate].
  intros H. injection H as ->. eauto 10.
Qed.

Lemma buildClaimTx_built c amount proof s formatted n txData :
  new_Contract c = None ->
  formattedProof proof = Return formatted ->
  BigInt.of_value amount = Return n ->
  populateTransaction c n formatted = Return txData ->
  fst (buildClaimTx c amount proof s) = Return txData.
Proof.
  intros H1 H2 H3 H4.
  unfold buildClaimTx, try_catch, bind, construct, lift, emit, ret, throw.
  rewrite H1, H2, H3. cbn. now rewrite H4.
Qed.

(** The transaction counts as a success exactly when the status of its
    receipt is the number 1. *)
Lemma sendTransaction_confirmed c txData s receipt_status :
  sendTransaction_answer c (tx_request txData 1020000000) = Return tt ->
  wait c = Return (Some receipt_status) ->
  fst (sendTransaction c txData s)
  = Return (JS.strict_eq receipt_status (JS.Num 1)).
Proof.
  intros Hsend Hwait. unfold sendTransaction. rewrite gasPrice_value.
  unfold try_catch, bind, lift, emit, ret, throw. cbn.
  rewrite Hsend, Hwait. cbn. now destruct (JS.strict_eq receipt_status (JS.Num 1)).
Qed.

(** What the claim variant does with a response: a throw leaves the agent
    as it was, a return has written one row and counted it once. *)
Lemma claim_response_cases walletData c r s out s' :
  claim_response walletData c r s = (out, s') ->
  match out with
  | Throw _ => agent s' = agent s
  | Return _ =>
      (no_claimable r = true
       /\ agent s' = with_failure (no_eligibility_row walletData) (agent s)
       /\ trace s' = trace s)
      \/ (exists d ok n,
            no_claimable r = false /\ data r = Some d
            /\ BigInt.of_value (data_amount d) = Return n
            /\ agent s' = with_claim walletData (data_amount d) ok n (agent s))
  end.
Proof.
  unfold claim_response.
  destruct (no_claimable r) eqn:Hno.
  { intros H. injection H as <- <-. left. repeat split. }
  destruct (data r) as [d|] eqn:Hd.
  2:{ intros H. injection H as <- <-. reflexivity. }
  unfold bind, lift.
  destruct (JSON_parse c (data_proof d)) as [proof|].
  2:{ intros H. injection H as <- <-. reflexivity. }
  pose proof (keeps_buildClaimTx c (data_amount d) proof s) as Hb.
  pose proof (buildClaimTx_returns c (data_amount d) proof s) as Hn.
  destruct (buildClaimTx c (data_amount d) proof s) as [[txData|e] s1];
    cbn [fst snd] in *.
  2:{ intros H. injection H as <- <-. exact Hb. }
  destruct (Hn txData eq_refl) as (formatted & n & _ & _ & Hbig & _).
  pose proof (keeps_sendTransaction c txData s1) as Hs.
  destruct (sendTransaction c txData s1) as [[ok|e] s2]; cbn [fst snd] in *.
  2:{ intros H. injection H as <- <-. congruence. }
  unfold add_totalAmount, bind, lift. rewrite Hbig.
  intros H.
  destruct ok; cbn in H; injection H as <- <-;
    right; exists d; [exists true | exists false]; exists n;
    repeat split; try assumption;
    unfold with_claim, with_total, with_success, with_failure, claimed_row;
    cbn; rewrite Hs, Hb; reflexivity.
Qed.

Lemma processWallet_entered v walletData c s :
  new_RequestManager c = None -> new_Wallet c = None ->
  processWallet v walletData c s
  = try_catch (pipeline v walletData c)
      (fun err =>
         read_property "message" err ;;;
         push (error_row v walletData) ;;;
         incr_failCount) s.
Proof. intros H1 H2. unfold processWallet. rewrite H1, H2. reflexivity. Qed.

(** A collaborator that cannot be built makes [processWallet] reject
    before its [try] block: nothing is written. *)
Lemma processWallet_not_entered v walletData c s :
  new_RequestManager c <> None \/ new_Wallet c <> None ->
  exists e, processWallet v walletData c s = (Throw e, s).
Proof.
  intros H. unfold processWallet, bind, construct.
  destruct (new_RequestManager c) as [e|]; [now exists e |].
  destruct (new_Wallet c) as [e|]; [now exists e |].
  destruct H; congruence.
Qed.

(** Once the [try] block is entered, [processWallet] returns, unless the
    block throws a nullish value. *)
Lemma processWallet_returns v walletData c s :
  new_RequestManager c = None -> new_Wallet c = None ->
  (forall e s1, pipeline v walletData c s = (Throw e, s1) -> nullish e = false) ->
  fst (processWallet v walletData c s) = Return tt.
Proof.
  intros H1 H2 Hnull. rewrite processWallet_entered by assumption.
  unfold try_catch, read_property.
  destruct (pipeline v walletData c s) as [[[]|e] s1]; [reflexivity |].
  now rewrite (Hnull e s1 eq_refl).
Qed.

(** An error that can be read is caught and gives the row of the [catch]
    clause. *)
Lemma processWallet_caught v walletData c s e s1 :
  new_RequestManager c = None -> new_Wallet c = None ->
  pipeline v walletData c s = (Throw e, s1) ->
  nullish e = false ->
  processWallet v walletData c s
  = (Return tt, set_agent (with_failure (error_row v walletData) (agent s1)) s1).
Proof.
  intros H1 H2 Hp Hnull. rewrite processWallet_entered by assumption.
  unfold try_catch, read_property. rewrite Hp, Hnull. reflexivity.
Qed.

(** A nullish value makes the [catch] clause throw before it writes. *)
Lemma processWallet_escaped v walletData c s e s1 :
  new_RequestManager c = None -> new_Wallet c = None ->
  pipeline v walletData c s = (Throw e, s1) ->
  nullish e = true ->
  processWallet v walletData c s = (Throw (read_fault "message" e), s1).
Proof.
  intros H1 H2 Hp Hnull. rewrite processWallet_entered by assumption.
  unfold try_catch, read_property. rewrite Hp, Hnull. reflexivity.
Qed.

Lemma processWallet_passed v walletData c s s1 :
  new_RequestManager c = None -> new_Wallet c = None ->
  pipeline v walletData c s = (Return tt, s1) ->
  processWallet v walletData c s = (Return tt, s1).
Proof.
  intros H1 H2 Hp. rewrite processWallet_entered by assumption.
  unfold try_catch. now rewrite Hp.
Qed.

(** The [try] block of the claim variant: a throw leaves the agent as it
    was, a return has written one row and counted it once. *)
Lemma pipeline_claim_cases walletData c s out s' :
  pipeline ClaimV walletData c s = (out, s') ->
  match out with
  | Throw _ => agent s' = agent s
  | Return _ =>
      agent s' = with_failure (no_eligibility_row walletData) (agent s)
      \/ (exists amount ok n, agent s' = with_claim walletData amount ok n (agent s))
  end.
Proof.
  rewrite pipeline_eligibility. unfold bind.
  pose proof (keeps_eligibility ClaimV walletData c s) as Hk.
  destruct (eligibility ClaimV walletData c s) as [[r|e] s1]; cbn [snd] in Hk.
  - intros H. apply claim_response_cases in H.
    destruct out as [[]|e].
    + destruct H as [(_ & H & _)|(d & ok & n & _ & _ & _ & H)].
      * left. congruence.
      * right. exists (data_amount d), ok, n. congruence.
    + congruence.
  - intros H. injection H as <- <-. exact Hk.
Qed.

Lemma counted_with_failure row a : counted a -> counted (with_failure row a).
Proof.
  unfold counted, with_failure. cbn. rewrite length_app. cbn. lia.
Qed.

Lemma counted_with_success row a : counted a -> counted (with_success row a).
Proof.
  unfold counted, with_success. cbn. rewrite length_app. cbn. lia.
Qed.

Lemma counted_with_claim walletData amount ok n a :
  counted a -> counted (with_claim walletData amount ok n a).
Proof.
  unfold counted, with_claim, with_total, with_success, with_failure.
  destruct ok; cbn; rewrite length_app; cbn; lia.
Qed.

(** The rows and counts [processWallet] adds in the claim variant: none
    when it rejects, else one row counted once. *)
Lemma processWallet_claim_cases walletData c s :
  (exists e s1, processWallet ClaimV walletData c s = (Throw e, s1)
                /\ agent s1 = agent s)
  \/ (fst (processWallet ClaimV walletData c s) = Return tt
      /\ exists row,
          results (agent (snd (processWallet ClaimV walletData c s)))
          = (results (agent s) ++ [row])%list
          /\ successCount (agent (snd (processWallet ClaimV walletData c s)))
             + failCount (agent (snd (processWallet ClaimV walletData c s)))
             = successCount (agent s) + failCount (agent s) + 1).
Proof.
  destruct (new_RequestManager c) as [e|] eqn:H1.
  { left. destruct (processWallet_not_entered ClaimV walletData c s) as [e' He'];
      [left; congruence | eauto]. }
  destruct (new_Wallet c) as [e|] eqn:H2.
  { left. destruct (processWallet_not_entered ClaimV walletData c s) as [e' He'];
      [right; congruence | eauto]. }
  destruct (pipeline ClaimV walletData c s) as [[[]|e] s1] eqn:Hp.
  - right. rewrite (processWallet_passed _ _ _ _ _ H1 H2 Hp). cbn [fst snd].
    split; [reflexivity |].
    apply pipeline_claim_cases in Hp.
    destruct Hp as [->|(amount & ok & n & ->)].
    + eexists. split; [reflexivity |]. cbn. lia.
    + eexists. unfold with_claim. destruct ok; (split; [reflexivity |]); cbn; lia.
  - destruct (nullish e) eqn:Hnull.
    + left. rewrite (processWallet_escaped _ _ _ _ _ _ H1 H2 Hp Hnull).
      apply pipeline_claim_cases in Hp. eauto.
    + right. rewrite (processWallet_caught _ _ _ _ _ _ H1 H2 Hp Hnull). cbn [fst snd].
      split; [reflexivity |].
      apply pipeline_claim_cases in Hp. cbn in Hp. rewrite Hp.
      eexists. split; [reflexivity |]. cbn. lia.
Qed.

(** In the claim variant the counters keep adding up to the number of
    rows. *)
Lemma processWallet_claim_counted walletData c s :
  counted (agent s) -> counted (agent (snd (processWallet ClaimV walletData c s))).
Proof.
  intros H.
  destruct (processWallet_claim_cases walletData c s)
    as [(e & s1 & -> & Ha)|(_ & row & Hr & Hc)].
  - cbn [snd]. now rewrite Ha.
  - unfold counted in *. rewrite Hr, length_app. cbn. lia.
Qed.

Lemma submitted_app (tr1 tr2 : list Event) :
  submitted (tr1 ++ tr2) = (submitted tr1 ++ submitted tr2)%list.
Proof. unfold submitted. now rewrite flat_map_app. Qed.

Lemma populated_app (tr1 tr2 : list Event) :
  populated (tr1 ++ tr2) = (populated tr1 ++ populated tr2)%list.
Proof. unfold populated. now rewrite flat_map_app. Qed.

Lemma no_transaction_quiet (tr : list Event) :
  Forall no_transaction tr -> submitted tr = [] /\ populated tr = [].
Proof.
  induction 1 as [|ev tr Hev _ [IH1 IH2]]; [split; reflexivity |].
  destruct ev; cbn in *; try contradiction; auto.
Qed.

(** The eligibility check submits nothing. *)
Lemma eligibility_quiet v walletData c s :
  submitted (trace (snd (eligibility v walletData c s))) = submitted (trace s)
  /\ populated (trace (snd (eligibility v walletData c s))) = populated (trace s).
Proof.
  destruct (emits_eligibility no_transaction v walletData c) with (s := s)
    as (tr & Htr & Hq); try (intros; exact I).
  apply no_transaction_quiet in Hq as [Hs Hp].
  rewrite Htr, submitted_app, populated_app, Hs, Hp, !app_nil_r. auto.
Qed.

Lemma strict_eq_str (x : JS.value) (t : string) :
  JS.strict_eq x (JS.Str t) = true <-> x = JS.Str t.
Proof.
  destruct x; simpl; split; try discriminate; try congruence.
  - intros H. apply String.eqb_eq in H. now subst.
  - intros H. injection H as ->. apply String.eqb_refl.
Qed.

(** An amount without anything to claim is falsy, and formats to ["0"],
    or it is the string ["0"], and formats to ["0.0"]. *)
Lemma formatTokenAmount_no_claimable (r : Response) (d : Data) :
  no_claimable r = true -> data r = Some d ->
  (JS.truthy (data_amount d) && negb (JS.strict_eq (data_amount d) (JS.Str "0")) = false)
  /\ (JS.truthy (data_amount d) = true -> data_amount d = JS.Str "0")
  /\ formatTokenAmount (data_amount d)
     = (if JS.truthy (data_amount d) then "0.0" else "0")%string.
Proof.
  unfold no_claimable. intros H Hd. rewrite Hd in H.
  destruct (JS.truthy (data_amount d)) eqn:Ht; cbn in H.
  - rewrite H. apply strict_eq_str in H.
    split; [reflexivity |]. split; [intros _; exact H |].
    rewrite H. reflexivity.
  - split; [reflexivity |]. split; [discriminate |].
    now apply formatTokenAmount_falsy.
Qed.

(** C5, as stated, fails for the check-only variant: a response with
    code 0 and no [data] has no claimable amount, and the wallet gets a
    row with amount ["0"] that is counted as a failure, not as a
    success. *)
Lemma check_variant_counts_missing_data_as_failure :
  no_claimable no_data = true
  /\ fst (eligibility CheckV wallet_1 (answered no_data) fresh) = Return no_data
  /\ agent (snd (processWallet CheckV wallet_1 (answered no_data) fresh))
     = {| successCount := 0; failCount := 1;
          results := [{| address := add wallet_1; amount := "0"; status := None |}];
          totalAmount := 0 |}.
Proof. repeat split. Qed.

(** C5, amended: when the response of the eligibility check has no
    [data], no amount, or the amount ["0"], the claim variant records the
    row with status [no_eligibility] and amount ["0"], counts a failure
    and neither builds nor submits a transaction; the check-only variant
    records, when the response has a [data] object, a zero-amount row
    counted as a success and leaves the total as it was, the amount of
    the row being ["0"] when the amount of the response is absent or
    otherwise falsy and ["0.0"] when it is the string ["0"], the one
    truthy amount without anything to claim; and, when the response has
    no [data] object, the row with amount ["0"] counted as a failure. *)
Theorem no_claimable_outcome
    (walletData : WalletData) (c : Collaborators) (s : St) (r : Response) :
  new_RequestManager c = None -> new_Wallet c = None ->
  no_claimable r = true ->
  (fst (eligibility ClaimV walletData c s) = Return r ->
   agent (snd (processWallet ClaimV walletData c s))
   = with_failure
       {| address := add walletData; amount := "0"; status := Some no_eligibility |}
       (agent s)
   /\ submitted (trace (snd (processWallet ClaimV walletData c s))) = submitted (trace s)
   /\ populated (trace (snd (processWallet ClaimV walletData c s))) = populated (trace s))
  /\ (fst (eligibility CheckV walletData c s) = Return r ->
      match data r with
      | Some d =>
          agent (snd (processWallet CheckV walletData c s))
          = with_success
              {| address := add walletData;
                 amount := if JS.truthy (data_amount d) then "0.0" else "0";
                 status := None |}
              (agent s)
          /\ (JS.truthy (data_amount d) = true -> data_amount d = JS.Str "0")
      | None =>
          agent (snd (processWallet CheckV walletData c s))
          = with_failure
              {| address := add walletData; amount := "0"; status := None |}
              (agent s)
      end).
Proof.
  intros H1 H2 Hno. split.
  - intros He.
    pose proof (keeps_eligibility ClaimV walletData c s) as Hk.
    pose proof (eligibility_quiet ClaimV walletData c s) as [Hsub Hpop].
    assert (Hpipe : pipeline ClaimV walletData c s
                    = claim_response walletData c r (snd (eligibility ClaimV walletData c s))).
    { rewrite pipeline_eligibility. unfold bind.
      destruct (eligibility ClaimV walletData c s) as [[r'|e'] s1]; cbn in *; congruence. }
    unfold claim_response in Hpipe. rewrite Hno in Hpipe.
    rewrite (processWallet_passed _ _ _ _ _ H1 H2 Hpipe).
    cbn [snd agent trace]. rewrite Hk, Hsub, Hpop. repeat split.
  - intros He.
    pose proof (keeps_eligibility CheckV walletData c s) as Hk.
    assert (Hpipe : pipeline CheckV walletData c s
                    = check_response walletData r (snd (eligibility CheckV walletData c s))).
    { rewrite pipeline_eligibility. unfold bind.
      destruct (eligibility CheckV walletData c s) as [[r'|e'] s1]; cbn in *; congruence. }
    unfold check_response in Hpipe.
    destruct (data r) as [d|] eqn:Hd.
    + destruct (formatTokenAmount_no_claimable r d Hno Hd) as (Hcond & Hstr & Hfmt).
      rewrite Hcond, Hfmt in Hpipe.
      rewrite (processWallet_passed _ _ _ _ _ H1 H2 Hpipe).
      split; [| exact Hstr].
      cbn [snd agent]. now rewrite Hk.
    + rewrite (processWallet_passed _ _ _ _ _ H1 H2 Hpipe).
      cbn [snd agent]. now rewrite Hk.
Qed.

Lemma no_claimable_outcome_witness :
  (agent (snd (processWallet ClaimV wallet_1 (answered (granted (JS.Str "0"))) fresh))
   = with_failure
       {| address := add wallet_1; amount := "0"; status := Some no_eligibility |}
       new_MindAgent
   /\ submitted (trace (snd (processWallet ClaimV wallet_1
                               (answered (granted (JS.Str "0"))) fresh))) = []
   /\ populated (trace (snd (processWallet ClaimV wallet_1
                               (answered (granted (JS.Str "0"))) fresh))) = [])
  /\ agent (snd (processWallet CheckV wallet_1 (answered (granted (JS.Str "0"))) fresh))
     = with_success {| address := add wallet_1; amount := "0.0"; status := None |}
         new_MindAgent
  /\ (JS.truthy (JS.Str "0") = true -> JS.Str "0" = JS.Str "0").
Proof.
  destruct (no_claimable_outcome wallet_1 (answered (granted (JS.Str "0"))) fresh
              (granted (JS.Str "0")) eq_refl eq_refl eq_refl) as [Hclaim Hcheck].
  split; [exact (Hclaim eq_refl) | exact (Hcheck eq_refl)].
Defined.

(** ** The claim transaction *)

Lemma emits_processWallet_claim walletData c :
  emits submits_fixed_gas (processWallet ClaimV walletData c).
Proof.
  unfold processWallet.
  apply emits_bind; [auto with agent | intros _].
  apply emits_bind; [auto with agent | intros _].
  apply emits_try_catch; [| auto 6 with agent].
  intros s. rewrite pipeline_eligibility. revert s.
  apply emits_bind.
  - apply emits_eligibility; intros; exact I.
  - intros r. unfold claim_response.
    destruct (no_claimable r); [auto 6 with agent |].
    destruct (data r) as [d|]; [| auto with agent].
    apply emits_bind; [auto with agent | intros proof].
    apply emits_bind; [apply emits_buildClaimTx | intros txData].
    apply emits_bind; [apply emits_sendTransaction | intros ok].
    destruct ok; auto 8 with agent.
Qed.

Lemma submitted_fixed_gas (tr : list Event) :
  Forall submits_fixed_gas tr -> Forall fixed_gas (submitted tr).
Proof.
  induction 1 as [|ev tr Hev _ IH]; [constructor |].
  destruct ev; cbn in *; auto.
Qed.

Lemma buildClaimTx_run c amount proof s formatted n txData :
  new_Contract c = None ->
  formattedProof proof = Return formatted ->
  BigInt.of_value amount = Return n ->
  populateTransaction c n formatted = Return txData ->
  buildClaimTx c amount proof s
  = (Return txData,
     {| agent := agent s;
        trace := trace s ++ [EvPopulateTransaction n formatted];
        calls := calls s |}).
Proof.
  intros H1 H2 H3 H4.
  unfold buildClaimTx, try_catch, bind, construct, lift, emit, ret, throw.
  rewrite H1, H2, H3. cbn. now rewrite H4.
Qed.

Lemma sendTransaction_run c txData s receipt_status :
  sendTransaction_answer c (tx_request txData 1020000000) = Return tt ->
  wait c = Return (Some receipt_status) ->
  sendTransaction c txData s
  = (Return (JS.strict_eq receipt_status (JS.Num 1)),
     {| agent := agent s;
        trace := trace s ++ [EvSendTransaction (tx_request txData 1020000000); EvWait];
        calls := calls s |}).
Proof.
  intros Hsend Hwait. unfold sendTransaction. rewrite gasPrice_value.
  unfold try_catch, bind, lift, emit, ret, throw. cbn.
  rewrite Hsend, Hwait. cbn. rewrite <- app_assoc.
  now destruct (JS.strict_eq receipt_status (JS.Num 1)).
Qed.



(** A reverted transaction gives the status [failed]. *)
Example reverted_claim_is_failed :
  results (agent (snd (processWallet ClaimV wallet_1
                         (answering None
                            (fun _ => Return (Some (granted (JS.Str "2500000000000000000"))))
                            (JS.Num 0)) fresh)))
  = [{| address := add wallet_1; amount := "2.5"; status := Some failed |}].
Proof. reflexivity. Qed.

(** ** The counters *)

(** What [BigInt] throws is an error object. *)
Lemma BigInt_of_value_throws (x : JS.value) (e : Err) :
  BigInt.of_value x = Throw e -> nullish e = false.
Proof.
  unfold BigInt.of_value.
  repeat match goal with
         | |- context [match ?y with _ => _ end] => destruct y
         end;
    intros H; try discriminate; injection H as <-; reflexivity.
Qed.

(** X25: what the check-only variant does with an amount that is there,
    is not ["0"] and does not convert: the row is pushed before the amount
    is added to the total, the conversion throws, and the [catch] clause
    pushes a second row for the same wallet and counts a failure. *)
Lemma processWallet_check_double_row
    (walletData : WalletData) (c : Collaborators) (s : St) (r : Response) (d : Data)
    (e : Err) :
  new_RequestManager c = None -> new_Wallet c = None ->
  fst (eligibility CheckV walletData c s) = Return r ->
  data r = Some d ->
  JS.truthy (data_amount d) = true ->
  JS.strict_eq (data_amount d) (JS.Str "0") = false ->
  BigInt.of_value (data_amount d) = Throw e ->
  results (agent (snd (processWallet CheckV walletData c s)))
  = (results (agent s)
     ++ [checked_row walletData "0"; checked_row walletData "0"])%list
  /\ successCount (agent (snd (processWallet CheckV walletData c s)))
     = successCount (agent s)
  /\ failCount (agent (snd (processWallet CheckV walletData c s)))
     = failCount (agent s) + 1.
Proof.
  intros H1 H2 He Hd Ht Hz Hbig.
  pose proof (keeps_eligibility CheckV walletData c s) as Hk.
  assert (Hpipe : pipeline CheckV walletData c s
                  = check_response walletData r (snd (eligibility CheckV walletData c s))).
  { rewrite pipeline_eligibility. unfold bind.
    destruct (eligibility CheckV walletData c s) as [[r'|e'] s1]; cbn in *; congruence. }
  unfold check_response in Hpipe. rewrite Hd, Ht, Hz in Hpipe.
  assert (Hfmt : formatTokenAmount (data_amount d) = "0").
  { unfold formatTokenAmount. now rewrite Ht, Hbig. }
  rewrite Hfmt in Hpipe. unfold add_totalAmount in Hpipe. rewrite Hbig in Hpipe.
  cbv beta iota zeta delta [bind push modify lift andb negb] in Hpipe.
  rewrite (processWallet_caught _ _ _ _ _ _ H1 H2 Hpipe
             (BigInt_of_value_throws _ _ Hbig)).
  cbn. rewrite Hk, <- app_assoc. repeat split.
Qed.

(** C9: in the check-only variant, a response with code 0 whose amount
    is the string ["abc"] makes [processWallet] push two rows for the one
    wallet and count one failure: from the fresh agent, the counters add
    up to 1 and the results hold 2 rows. *)
Theorem processWallet_check_breaks_count :
  results (agent (snd (processWallet CheckV wallet_1
                         (answered (granted (JS.Str "abc"))) fresh)))
  = [{| address := add wallet_1; amount := "0"; status := None |};
     {| address := add wallet_1; amount := "0"; status := None |}]
  /\ successCount (agent (snd (processWallet CheckV wallet_1
                                 (answered (granted (JS.Str "abc"))) fresh))) = 0
  /\ failCount (agent (snd (processWallet CheckV wallet_1
                              (answered (granted (JS.Str "abc"))) fresh))) = 1
  /\ ~ counted (agent (snd (processWallet CheckV wallet_1
                              (answered (granted (JS.Str "abc"))) fresh))).
Proof. repeat split. unfold counted. cbn. discriminate. Qed.

(** ** The task pool *)

Lemma rows_of_fresh v job :
  rows_of v job
  = results (agent (snd (processWallet v (walletData job) (collaborators job) fresh))).
Proof. reflexivity. Qed.

(** When the [processWallet] of wallet [i] settles, its rows join the
    results, whatever the other pipelines wrote in the meantime. *)
Lemma settle_results v wallets i a :
  results (settle v wallets i a) = (results a ++ rows_at v wallets i)%list.
Proof.
  unfold settle, rows_at. destruct (wallets !! i) as [job|].
  - rewrite processWallet_shift. reflexivity.
  - now rewrite app_nil_r.
Qed.

Lemma chain_split (cs : list Chain) (k : nat) (c : Chain) :
  cs !! k = Some c ->
  exists front back,
    cs = (front ++ c :: back)%list
    /\ forall c', <[k := c']> cs = (front ++ c' :: back)%list.
Proof.
  intros H. exists (take k cs), (drop (S k) cs). split.
  - symmetry. now apply take_drop_middle.
  - intros c'. apply insert_take_drop. now apply lookup_lt_Some with c.
Qed.

Lemma in_flight_app (cs1 cs2 : list Chain) :
  in_flight (cs1 ++ cs2) = (in_flight cs1 ++ in_flight cs2)%list.
Proof. unfold in_flight. apply flat_map_app. Qed.

Lemma in_flight_processing (i : nat) (cs : list Chain) :
  in_flight (Processing i :: cs) = i :: in_flight cs.
Proof. reflexivity. Qed.

Lemma in_flight_cooling (cs : list Chain) : in_flight (CoolingDown :: cs) = in_flight cs.
Proof. reflexivity. Qed.

Lemma in_flight_returned (cs : list Chain) : in_flight (Returned :: cs) = in_flight cs.
Proof. reflexivity. Qed.

Lemma all_returned_in_flight (cs : list Chain) :
  all_returned cs = true -> in_flight cs = [].
Proof.
  induction cs as [|c cs IH]; [reflexivity |].
  cbn. destruct c; try discriminate. exact IH.
Qed.

Lemma all_returned_In (cs : list Chain) :
  all_returned cs = true -> cs <> [] -> In Returned cs.
Proof.
  destruct cs as [|c cs]; [congruence |].
  cbn. destruct c; try discriminate. auto.
Qed.

Lemma not_all_returned (cs : list Chain) :
  all_returned cs = false ->
  exists k c, cs !! k = Some c /\ c <> Returned.
Proof.
  induction cs as [|c cs IH]; [discriminate |].
  cbn. destruct c.
  - intros _. exists 0%nat, (Processing i). split; [reflexivity | discriminate].
  - intros _. exists 0%nat, CoolingDown. split; [reflexivity | discriminate].
  - intros H. destruct (IH H) as (k & c & Hk & Hc). now exists (S k), c.
Qed.

Lemma flat_map_rows_seq v wallets :
  flat_map (rows_at v wallets) (seq 0 (length wallets)) = flat_map (rows_of v) wallets.
Proof.
  induction wallets as [|job wallets IH] using rev_ind; [reflexivity |].
  rewrite length_app, Nat.add_comm. cbn [length Nat.add].
  rewrite seq_S, !flat_map_app. cbn [flat_map Nat.add]. rewrite !app_nil_r.
  f_equal.
  - rewrite <- IH. rewrite !flat_map_concat_map. f_equal.
    apply map_ext_in. intros i Hi. apply in_seq in Hi.
    unfold rows_at. rewrite lookup_app_l by lia. reflexivity.
  - unfold rows_at. rewrite list_lookup_middle by reflexivity. reflexivity.
Qed.

Section PoolProperties.

Variable v : Variant.
Variable wallets : list Job.
Variable concurrentLimit : nat.

Lemma invariant_start :
  pool_invariant v wallets concurrentLimit (start wallets concurrentLimit).
Proof.
  unfold pool_invariant, start, seed, processOne.
  destruct (0 <? seeds wallets concurrentLimit)%nat eqn:Hseeds.
  - apply Nat.ltb_lt in Hseeds.
    assert (0 < length wallets)%nat by (unfold seeds in Hseeds; lia).
    cbn [currentIndex]. destruct (Nat.leb_spec (length wallets) 0); [lia |].
    cbn. repeat split; try lia; try discriminate.
    + intros [Hin|[]]. discriminate.
    + reflexivity.
    + destruct (seeds wallets concurrentLimit) as [|[|n]]; discriminate.
  - apply Nat.ltb_ge in Hseeds. cbn.
    repeat split; try lia; try discriminate; try contradiction. constructor.
Qed.

Lemma invariant_step ch p p' :
  pool_invariant v wallets concurrentLimit p ->
  step v wallets concurrentLimit ch p = Some p' ->
  pool_invariant v wallets concurrentLimit p'.
Proof.
  unfold pool_invariant, step.
  intros (Hle & Hret & Hperm & Hres & Hne & Hsaved) Hstep.
  destruct ch as [|k].
  - destruct (main p) as [i| |] eqn:Hmain; [| |discriminate].
    + injection Hstep as <-. unfold seed, processOne.
      destruct (Nat.leb_spec (length wallets) (currentIndex p)) as [Hend|Hmore];
        cbn [currentIndex chains settled pool_agent main].
      * repeat split; try assumption.
        -- lia.
        -- now rewrite in_flight_app, app_nil_r.
        -- intros _ H. now apply app_eq_nil in H as [_ H].
        -- destruct (S i <? seeds wallets concurrentLimit)%nat; discriminate.
      * repeat split; try assumption.
        -- intros Hin. apply in_app_or in Hin as [Hin|[Hin|[]]]; [| discriminate].
           apply Hret in Hin. lia.
        -- rewrite in_flight_app, seq_S, app_assoc. cbn.
           now apply Permutation_app_tail.
        -- intros _ H. now apply app_eq_nil in H as [_ H].
        -- destruct (S i <? seeds wallets concurrentLimit)%nat; discriminate.
    + destruct (all_returned (chains p)) eqn:Hall; [|discriminate].
      injection Hstep as <-. cbn. repeat split; auto.
  - destruct (chains p !! k) as [[i| |]|] eqn:Hk; try discriminate.
    + injection Hstep as <-.
      destruct (chain_split _ _ _ Hk) as (front & back & Hcs & Hins).
      cbn [currentIndex chains settled pool_agent main].
      rewrite Hins. rewrite Hcs in Hret, Hperm, Hne, Hsaved.
      repeat split; try assumption.
      * intros Hin. apply Hret. apply in_app_or in Hin as [Hin|[Hin|Hin]];
          [| discriminate |]; apply in_or_app; [left | right; right]; assumption.
      * rewrite in_flight_app, ?in_flight_processing, ?in_flight_cooling in *.
        rewrite <- Hperm, <- !app_assoc. apply Permutation_app_head.
        apply (Permutation_middle (in_flight front) (in_flight back) i).
      * rewrite settle_results, Hres, flat_map_app. cbn. now rewrite app_nil_r.
      * intros _ H. now apply app_eq_nil in H as [_ H].
      * intros Hm. apply Hsaved in Hm. unfold all_returned in Hm.
        rewrite forallb_app in Hm. cbn in Hm. now rewrite andb_false_r in Hm.
    + destruct (chain_split _ _ _ Hk) as (front & back & Hcs & Hins).
      rewrite Hcs in Hret, Hperm, Hne, Hsaved.
      unfold processOne in Hstep.
      destruct (Nat.ltb_spec (currentIndex p) (length wallets)) as [Hmore|Hend].
      * destruct (Nat.leb_spec (length wallets) (currentIndex p)); [lia |].
        injection Hstep as <-.
        cbn [currentIndex chains settled pool_agent main]. rewrite Hins.
        repeat split; try assumption.
        -- intros Hin. exfalso.
           assert (In Returned (front ++ CoolingDown :: back)); [| apply Hret in H0; lia].
           apply in_app_or in Hin as [Hin|[Hin|Hin]];
             [| discriminate |]; apply in_or_app; [left | right; right]; assumption.
        -- rewrite in_flight_app, ?in_flight_processing, ?in_flight_cooling in *.
           rewrite seq_S. cbn [Nat.add].
           rewrite <- Hperm, <- !app_assoc. do 2 apply Permutation_app_head.
           first [apply Permutation_cons_append
                 | symmetry; apply Permutation_cons_append].
        -- intros _ H'. now apply app_eq_nil in H' as [_ H'].
        -- intros Hm. apply Hsaved in Hm. unfold all_returned in Hm.
           rewrite forallb_app in Hm. cbn in Hm. now rewrite andb_false_r in Hm.
      * injection Hstep as <-.
        cbn [currentIndex chains settled pool_agent main]. rewrite Hins.
        repeat split; try assumption.
        -- lia.
        -- rewrite in_flight_app, ?in_flight_returned, ?in_flight_cooling in *.
           exact Hperm.
        -- intros _ H'. now apply app_eq_nil in H' as [_ H'].
        -- intros Hm. apply Hsaved in Hm. unfold all_returned in Hm.
           rewrite forallb_app in Hm. cbn in Hm. now rewrite andb_false_r in Hm.
Qed.

Lemma reachable_invariant p :
  reachable v wallets concurrentLimit p ->
  pool_invariant v wallets concurrentLimit p.
Proof.
  induction 1 as [|ch p p' _ IH Hstep].
  - apply invariant_start.
  - now apply invariant_step with ch p.
Qed.

End PoolProperties.

Section PoolTermination.

Variable v : Variant.
Variable wallets : list Job.
Variable concurrentLimit : nat.

Lemma weight_split (front back : list Chain) (c : Chain) :
  list_sum (map chain_weight (front ++ c :: back))
  = (list_sum (map chain_weight front) + chain_weight c
     + list_sum (map chain_weight back))%nat.
Proof.
  rewrite map_app, list_sum_app. unfold list_sum. cbn [map fold_right]. lia.
Qed.

(** Every turn of the event loop uses up a turn. *)
Lemma step_turns_left ch p p' :
  step v wallets concurrentLimit ch p = Some p' ->
  (turns_left wallets concurrentLimit p' < turns_left wallets concurrentLimit p)%nat.
Proof.
  unfold step, turns_left. intros Hstep. destruct ch as [|k].
  - destruct (main p) as [i| |] eqn:Hmain; [| |discriminate].
    + injection Hstep as <-. unfold seed, processOne.
      destruct (Nat.leb_spec (length wallets) (currentIndex p));
        cbn [currentIndex chains main];
        rewrite map_app, list_sum_app; unfold list_sum;
        cbn [map fold_right chain_weight];
        destruct (Nat.ltb_spec (S i) (seeds wallets concurrentLimit));
        cbn [main_weight]; lia.
    + destruct (all_returned (chains p)); [|discriminate].
      injection Hstep as <-. cbn [currentIndex chains main main_weight]. lia.
  - destruct (chains p !! k) as [[i| |]|] eqn:Hk; try discriminate.
    + injection Hstep as <-.
      destruct (chain_split _ _ _ Hk) as (front & back & Hcs & Hins).
      cbn [currentIndex chains main]. rewrite Hins, Hcs, !weight_split.
        cbn [chain_weight]. lia.
    + destruct (chain_split _ _ _ Hk) as (front & back & Hcs & Hins).
      unfold processOne in Hstep.
      destruct (Nat.ltb_spec (currentIndex p) (length wallets)).
      * destruct (Nat.leb_spec (length wallets) (currentIndex p)); [lia |].
        injection Hstep as <-.
        cbn [currentIndex chains main]. rewrite Hins, Hcs, !weight_split.
        cbn [chain_weight]. lia.
      * injection Hstep as <-.
        cbn [currentIndex chains main]. rewrite Hins, Hcs, !weight_split.
        cbn [chain_weight]. lia.
Qed.

(** Until the results are saved, some task is ready to resume. *)
Lemma step_progress p :
  main p <> Saved -> exists ch p', step v wallets concurrentLimit ch p = Some p'.
Proof.
  intros Hmain. destruct (main p) as [i| |] eqn:Hm; [| |congruence].
  - exists ResumeMain. unfold step. rewrite Hm. eauto.
  - destruct (all_returned (chains p)) eqn:Hall.
    + exists ResumeMain. unfold step. rewrite Hm, Hall. eauto.
    + apply not_all_returned in Hall as (k & c & Hk & Hc).
      exists (ResumeChain k). unfold step. rewrite Hk.
      destruct c; [eauto | | congruence].
      destruct (if (currentIndex p <? length wallets)%nat
                then processOne wallets (currentIndex p)
                else (Returned, currentIndex p)); eauto.
Qed.

(** Once the results are saved, nothing is left to resume. *)
Lemma saved_final ch p :
  pool_invariant v wallets concurrentLimit p -> main p = Saved ->
  step v wallets concurrentLimit ch p = None.
Proof.
  intros (_ & _ & _ & _ & _ & Hsaved) Hm. specialize (Hsaved Hm).
  unfold step. destruct ch as [|k]; [now rewrite Hm |].
  destruct (chains p !! k) as [c|] eqn:Hk; [|reflexivity].
  unfold all_returned in Hsaved. rewrite forallb_forall in Hsaved.
  assert (Hin : In c (chains p)).
  { apply list_elem_of_In, list_elem_of_lookup. eauto. }
  apply Hsaved in Hin. destruct c; [discriminate | discriminate | reflexivity].
Qed.

Lemma run_reachable schedule : forall p,
  reachable v wallets concurrentLimit p ->
  reachable v wallets concurrentLimit (run v wallets concurrentLimit schedule p).
Proof.
  induction schedule as [|ch schedule IH]; intros p Hp; [exact Hp |].
  cbn [run]. destruct (step v wallets concurrentLimit ch p) as [p'|] eqn:Hstep.
  - apply IH. now apply reachable_step with ch p.
  - now apply IH.
Qed.

(** X23: provided every call the pipelines await settles, as every
    answer of the collaborators of the model does, the task pool does not
    deadlock: from every state of a run, resuming tasks that are ready
    leads to the saving of the results after at most [turns_left]
    turns. *)
Lemma run_to_the_end p :
  exists schedule,
    (length schedule <= turns_left wallets concurrentLimit p)%nat
    /\ main (run v wallets concurrentLimit schedule p) = Saved.
Proof.
  remember (turns_left wallets concurrentLimit p) as n eqn:Hn.
  revert p Hn. induction n as [n IH] using lt_wf_ind. intros p Hn.
  destruct (main p) as [i| |] eqn:Hm.
  3:{ exists []. split; [cbn; lia | exact Hm]. }
  all: destruct (step_progress p) as (ch & p' & Hstep); [congruence |];
    pose proof (step_turns_left _ _ _ Hstep) as Hlt;
    destruct (IH (turns_left wallets concurrentLimit p')) with (p := p')
      as (schedule & Hlen & Hend); [lia | reflexivity |];
    exists (ch :: schedule); cbn [run length]; rewrite Hstep; split; [lia | exact Hend].
Qed.

(** The state of a run that has saved its results, the pool having been
    given at least one slot and one wallet: the cursor is at the end of
    the list, every wallet has settled exactly once, and the results
    are the rows of the wallets in the order of completion. *)
Lemma saved_pool p :
  (1 <= concurrentLimit)%nat -> (1 <= length wallets)%nat ->
  reachable v wallets concurrentLimit p -> main p = Saved ->
  currentIndex p = length wallets
  /\ Permutation (settled p) (seq 0 (length wallets))
  /\ results (pool_agent p) = flat_map (rows_at v wallets) (settled p)
  /\ Permutation (results (pool_agent p)) (flat_map (rows_of v) wallets).
Proof.
  intros HC HN Hreach Hm.
  destruct (reachable_invariant _ _ _ _ Hreach)
    as (Hle & Hret & Hperm & Hres & Hne & Hsaved).
  specialize (Hsaved Hm).
  assert (Hcursor : currentIndex p = length wallets).
  { apply Nat.le_antisymm; [exact Hle |]. apply Hret.
    apply all_returned_In; [exact Hsaved |]. apply Hne. unfold seeds. lia. }
  rewrite (all_returned_in_flight _ Hsaved), app_nil_r, Hcursor in Hperm.
  repeat split; try assumption.
  rewrite Hres, <- flat_map_rows_seq. now apply Permutation_flat_map.
Qed.

End PoolTermination.

(** *** Error objects *)

Section ThrowsErrors.

Context {A B : Type}.

Lemma throws_errors_ret (a : A) : throws_errors (ret a).
Proof. intros s e s1 H. discriminate. Qed.

Lemma throws_errors_throw (e : Err) : nullish e = false -> throws_errors (@throw A e).
Proof. intros He s e' s1 H. injection H as <- _. exact He. Qed.

Lemma throws_errors_lift (o : Outcome A) :
  (forall e, o = Throw e -> nullish e = false) -> throws_errors (lift o).
Proof. intros Ho s e s1 H. injection H as -> _. now apply Ho. Qed.

Lemma throws_errors_bind (m : M A) (k : A -> M B) :
  throws_errors m -> (forall a, throws_errors (k a)) -> throws_errors (bind m k).
Proof.
  intros Hm Hk s e s1. unfold bind.
  destruct (m s) as [[a|e'] s'] eqn:E.
  - apply Hk.
  - intros H. injection H as <- <-. now apply (Hm s e' s').
Qed.

Lemma throws_errors_try_catch (body : M A) (handler : Err -> M A) :
  (forall e, throws_errors (handler e)) -> throws_errors (try_catch body handler).
Proof.
  intros Hk s e s1. unfold try_catch.
  destruct (body s) as [[a|e'] s']; [discriminate | apply Hk].
Qed.

(** [catch (error) { ...; throw error; }] *)
Lemma throws_errors_rethrow (body : M A) :
  throws_errors body -> throws_errors (try_catch body (fun err => throw err)).
Proof.
  intros Hm s e s1. unfold try_catch, throw.
  destruct (body s) as [[a|e'] s'] eqn:E; [discriminate |].
  intros H. injection H as <- <-. now apply (Hm s e' s').
Qed.

End ThrowsErrors.

Lemma throws_errors_emit (ev : Event) : throws_errors (emit ev).
Proof. intros s e s1 H. discriminate. Qed.

Lemma throws_errors_modify (f : Agent -> Agent) : throws_errors (modify f).
Proof. intros s e s1 H. discriminate. Qed.

Lemma throws_errors_construct (answer : option Err) :
  (forall e, answer = Some e -> nullish e = false) -> throws_errors (construct answer).
Proof.
  intros Ha s e s1. destruct answer as [e'|]; cbn; [| discriminate].
  intros H. injection H as <- _. now apply Ha.
Qed.

(** The read of a property throws a [TypeError]. *)
Lemma throws_errors_read_property property err :
  throws_errors (read_property property err).
Proof.
  intros s e s1. unfold read_property.
  destruct (nullish err); [| discriminate].
  intros H. injection H as <- _. reflexivity.
Qed.

(** A [catch] clause that reads a property of the error before it throws
    it again throws the error, or the [TypeError] of the read. *)
Lemma throws_errors_read_rethrow {A} property err :
  throws_errors (A := A) (read_property property err ;;; throw err).
Proof.
  intros s e s1. unfold bind, read_property, throw, ret.
  destruct (nullish err) eqn:E; intros H; injection H as <- _; [reflexivity | exact E].
Qed.

(** The retry controller throws the error of its fifth attempt, which it
    has read, or the [TypeError] of the read. *)
Lemma throws_errors_checkEligibilityWithRetry v c address signature :
  throws_errors (checkEligibilityWithRetry v c address signature).
Proof.
  intros s e s1 H. unfold checkEligibilityWithRetry in H.
  destruct (retry_loop_spec v c address signature (Z.to_nat maxRetries) 0 None s)
    as (n & _ & _ & _ & _ & _ & Hout); [lia | reflexivity |].
  rewrite H in Hout. cbn [fst] in Hout.
  change (Z.to_nat maxRetries) with 5%nat in Hout.
  destruct Hout as [(-> & Hall & ->) | (m & _ & _ & ->)]; [| reflexivity].
  cbn [last_error thrown]. rewrite rejects_nullish_attempt_error.
  apply Hall. lia.
Qed.

Lemma throws_errors_createSignature c :
  (forall e, signMessage c = Throw e -> nullish e = false) ->
  throws_errors (createSignature c).
Proof.
  intros Hsign. unfold createSignature. apply throws_errors_rethrow.
  apply throws_errors_bind; [apply throws_errors_emit |].
  intros _. now apply throws_errors_lift.
Qed.

Lemma map_entries_throws (proof : list JS.value) (e : Err) :
  map_entries proof = Throw e -> nullish e = false.
Proof.
  induction proof as [|x proof IH]; cbn; [discriminate |].
  destruct (format_entry x) as [q|e'] eqn:Hx.
  - destruct (map_entries proof) as [qs|e']; [discriminate |].
    intros H. injection H as <-. now apply IH.
  - intros H. injection H as <-.
    destruct x; cbn in Hx; try discriminate; injection Hx as <-; reflexivity.
Qed.

Lemma formattedProof_throws (proof : option (list JS.value)) (e : Err) :
  formattedProof proof = Throw e -> nullish e = false.
Proof.
  destruct proof as [entries|]; cbn.
  - apply map_entries_throws.
  - intros H. injection H as <-. reflexivity.
Qed.

Lemma throws_errors_buildClaimTx c amount proof :
  rejects_with_errors c -> throws_errors (buildClaimTx c amount proof).
Proof.
  intros (_ & _ & Hctr & Hpop). unfold buildClaimTx. apply throws_errors_rethrow.
  apply throws_errors_bind; [now apply throws_errors_construct | intros _].
  apply throws_errors_bind;
    [apply throws_errors_lift, formattedProof_throws | intros formatted].
  apply throws_errors_bind;
    [apply throws_errors_lift, BigInt_of_value_throws | intros n].
  apply throws_errors_bind; [apply throws_errors_emit | intros _].
  apply throws_errors_lift, Hpop.
Qed.

(** What [sendTransaction] throws is an error object, whatever its
    collaborators reject with. *)
Lemma throws_errors_sendTransaction c txData : throws_errors (sendTransaction c txData).
Proof.
  unfold sendTransaction. apply throws_errors_try_catch.
  intros err. apply throws_errors_read_rethrow.
Qed.

Lemma throws_errors_add_totalAmount amount : throws_errors (add_totalAmount amount).
Proof.
  unfold add_totalAmount.
  apply throws_errors_bind; [apply throws_errors_lift, BigInt_of_value_throws |].
  intros n. apply throws_errors_modify.
Qed.

Lemma throws_errors_pipeline_claim walletData c :
  rejects_with_errors c -> throws_errors (pipeline ClaimV walletData c).
Proof.
  intros Hc. pose proof Hc as (Hsign & Hparse & _).
  unfold pipeline, pipeline_claim.
  apply throws_errors_bind; [now apply throws_errors_createSignature | intros signature].
  apply throws_errors_bind;
    [apply throws_errors_checkEligibilityWithRetry | intros response].
  unfold claim_response, push, incr_successCount, incr_failCount.
  destruct (no_claimable response).
  { apply throws_errors_bind; [apply throws_errors_modify | intros _].
    apply throws_errors_modify. }
  destruct (data response) as [d|]; [| now apply throws_errors_throw].
  apply throws_errors_bind; [apply throws_errors_lift, Hparse | intros proof].
  apply throws_errors_bind; [now apply throws_errors_buildClaimTx | intros txData].
  apply throws_errors_bind; [apply throws_errors_sendTransaction | intros ok].
  apply throws_errors_bind; [apply throws_errors_modify | intros _].
  apply throws_errors_bind;
    [destruct ok; apply throws_errors_modify | intros _].
  apply throws_errors_add_totalAmount.
Qed.

(** In the claim variant a wallet whose collaborators can be built, and
    throw error objects, gets exactly one row. *)
Lemma rows_of_constructible (job : Job) :
  constructible job -> rejects_with_errors (collaborators job) ->
  length (rows_of ClaimV job) = 1%nat.
Proof.
  intros [H1 H2] Hc. rewrite rows_of_fresh.
  destruct (processWallet_claim_cases (walletData job) (collaborators job) fresh)
    as [(e & s1 & He & _)|(_ & row & Hrow & _)].
  - pose proof (processWallet_returns ClaimV (walletData job) _ fresh H1 H2) as Hr.
    rewrite He in Hr. cbn [fst] in Hr.
    assert (Throw e = Return tt) as Habs; [| discriminate].
    apply Hr. intros e' s' Hp.
    exact (throws_errors_pipeline_claim _ _ Hc _ _ _ Hp).
  - rewrite Hrow. reflexivity.
Qed.

Lemma length_flat_map_ones {A B} (f : A -> list B) (l : list A) :
  Forall (fun x => length (f x) = 1%nat) l -> length (flat_map f l) = length l.
Proof.
  induction 1 as [|x l Hx _ IH]; [reflexivity |].
  cbn. rewrite length_app, Hx, IH. reflexivity.
Qed.

(** X24: the task pool of the claim variant, run with [1 <= C <= N] on
    wallets whose collaborators can all be built and throw error objects
    when they sign, parse the proof and build the call: a run that has
    saved its results has recorded exactly [N] rows, one per wallet. *)
Lemma processWallets_one_row_per_constructible_wallet
    (wallets : list Job) (concurrentLimit : nat) (p : Pool) :
  (1 <= concurrentLimit <= length wallets)%nat ->
  Forall constructible wallets ->
  Forall (fun job => rejects_with_errors (collaborators job)) wallets ->
  reachable ClaimV wallets concurrentLimit p -> main p = Saved ->
  length (results (pool_agent p)) = length wallets
  /\ Permutation (results (pool_agent p)) (flat_map (rows_of ClaimV) wallets).
Proof.
  intros [HC HN] Hall Herr Hreach Hm.
  destruct (saved_pool ClaimV wallets concurrentLimit p) as (_ & _ & _ & Hperm);
    try assumption; try lia.
  split; [| exact Hperm].
  rewrite (Permutation_length Hperm). apply length_flat_map_ones.
  rewrite Forall_forall in Hall, Herr. apply Forall_forall. intros job Hin.
  apply rows_of_constructible; auto.
Qed.

(** C4, amended: once [processWallet] has built its two collaborators, an error
    object thrown in its [try] block is caught: [processWallet] returns,
    and the wallet gets one row with amount ["0"], counted as a failure,
    and nothing else is written.  In the claim variant the row has the
    status [error], whatever stage threw (signing, the exhausted
    eligibility check, building or submitting the transaction), and the
    [try] block has written nothing before it throws; in the check-only
    variant the row has no status, and the [try] block has written
    nothing when it is signing or the eligibility check that threw.  A
    thrown [undefined] or [null] makes the [catch] clause itself throw,
    on its read of [error.message]: [processWallet] rejects and its
    [catch] clause has written nothing.
    In the task pool the chain of a wallet cools down whether its
    [processWallet] returned or rejected, the other chains, the cursor
    and the body of [processWallets] being left as they were, and then
    takes the next wallet if one is left; and a run that has saved its
    results has settled every wallet of the list exactly once, the
    results being the rows of the wallets in the order of completion. *)
Theorem processWallet_catches_pipeline_errors
    (walletData : WalletData) (c : Collaborators) (s : St) (e : Err) :
  (new_RequestManager c = None -> new_Wallet c = None ->
   (fst (pipeline ClaimV walletData c s) = Throw e ->
    if nullish e
    then fst (processWallet ClaimV walletData c s) = Throw (read_fault "message" e)
         /\ agent (snd (processWallet ClaimV walletData c s)) = agent s
    else fst (processWallet ClaimV walletData c s) = Return tt
         /\ agent (snd (processWallet ClaimV walletData c s))
            = with_failure
                {| address := add walletData; amount := "0"; status := Some error |}
                (agent s))
   /\ (forall s1,
         pipeline CheckV walletData c s = (Throw e, s1) ->
         (fst (eligibility CheckV walletData c s) = Throw e -> agent s1 = agent s)
         /\ if nullish e
            then fst (processWallet CheckV walletData c s)
                 = Throw (read_fault "message" e)
                 /\ agent (snd (processWallet CheckV walletData c s)) = agent s1
            else fst (processWallet CheckV walletData c s) = Return tt
                 /\ agent (snd (processWallet CheckV walletData c s))
                    = with_failure
                        {| address := add walletData; amount := "0"; status := None |}
                        (agent s1)))
  /\ (forall v wallets concurrentLimit p k i,
        chains p !! k = Some (Processing i) ->
        wallets !! i = Some {| walletData := walletData; collaborators := c |} ->
        step v wallets concurrentLimit (ResumeChain k) p
        = Some {| currentIndex := currentIndex p;
                  pool_agent :=
                    agent (snd (processWallet v walletData c
                                  {| agent := pool_agent p; trace := []; calls := 0 |}));
                  chains := <[k := CoolingDown]> (chains p);
                  main := main p;
                  settled := settled p ++ [i] |})
  /\ (forall v wallets concurrentLimit p k,
        chains p !! k = Some CoolingDown ->
        (currentIndex p < length wallets)%nat ->
        step v wallets concurrentLimit (ResumeChain k) p
        = Some {| currentIndex := S (currentIndex p);
                  pool_agent := pool_agent p;
                  chains := <[k := Processing (currentIndex p)]> (chains p);
                  main := main p;
                  settled := settled p |})
  /\ (forall v wallets concurrentLimit schedule,
        (1 <= concurrentLimit)%nat ->
        In {| walletData := walletData; collaborators := c |} wallets ->
        main (run v wallets concurrentLimit schedule (start wallets concurrentLimit))
        = Saved ->
        Permutation
          (settled (run v wallets concurrentLimit schedule (start wallets concurrentLimit)))
          (seq 0 (length wallets))
        /\ results (pool_agent (run v wallets concurrentLimit schedule
                                  (start wallets concurrentLimit)))
           = flat_map (rows_at v wallets)
               (settled (run v wallets concurrentLimit schedule
                           (start wallets concurrentLimit)))).
Proof.
  split; [intros H1 H2; split | split; [| split]].
  - intros Hp. destruct (pipeline ClaimV walletData c s) as [out s1] eqn:Hpipe.
    cbn in Hp. subst out.
    pose proof (pipeline_claim_cases _ _ _ _ _ Hpipe) as Ha. cbn in Ha.
    destruct (nullish e) eqn:Hnull.
    + rewrite (processWallet_escaped _ _ _ _ _ _ H1 H2 Hpipe Hnull). now split.
    + rewrite (processWallet_caught _ _ _ _ _ _ H1 H2 Hpipe Hnull).
      cbn [fst snd set_agent agent]. rewrite Ha. now split.
  - intros s1 Hpipe. split.
    + intros He. pose proof (keeps_eligibility CheckV walletData c s) as Ha.
      rewrite pipeline_eligibility in Hpipe. unfold bind in Hpipe.
      destruct (eligibility CheckV walletData c s) as [[r|e'] s'];
        cbn [fst snd] in *; [discriminate |].
      injection Hpipe as _ <-. exact Ha.
    + destruct (nullish e) eqn:Hnull.
      * rewrite (processWallet_escaped _ _ _ _ _ _ H1 H2 Hpipe Hnull). now split.
      * rewrite (processWallet_caught _ _ _ _ _ _ H1 H2 Hpipe Hnull). now split.
  - intros v wallets concurrentLimit p k i Hk Hi.
    unfold step. rewrite Hk. unfold settle. rewrite Hi. reflexivity.
  - intros v wallets concurrentLimit p k Hk Hlt.
    unfold step. rewrite Hk. unfold processOne.
    destruct (Nat.ltb_spec (currentIndex p) (length wallets)); [| lia].
    destruct (Nat.leb_spec (length wallets) (currentIndex p)); [lia | reflexivity].
  - intros v wallets concurrentLimit schedule HC Hin Hsaved.
    assert (HN : (1 <= length wallets)%nat).
    { destruct wallets; [contradiction | cbn; lia]. }
    destruct (saved_pool v wallets concurrentLimit _ HC HN
                (run_reachable v wallets concurrentLimit schedule _
                   (reachable_start v wallets concurrentLimit)) Hsaved)
      as (_ & Hperm & Hres & _).
    now split.
Qed.

Lemma processWallet_catches_pipeline_errors_witness :
  (fst (processWallet ClaimV wallet_1 signing_fails fresh) = Return tt
   /\ agent (snd (processWallet ClaimV wallet_1 signing_fails fresh))
      = with_failure {| address := add wallet_1; amount := "0"; status := Some error |}
          new_MindAgent)
  /\ (fst (processWallet CheckV wallet_1 signing_fails fresh) = Return tt
      /\ agent (snd (processWallet CheckV wallet_1 signing_fails fresh))
         = with_failure {| address := add wallet_1; amount := "0"; status := None |}
             new_MindAgent)
  /\ Permutation
       (settled (run ClaimV failing_then_good 2 six_turns (start failing_then_good 2)))
       (seq 0 (length failing_then_good))
  /\ results (pool_agent (run ClaimV failing_then_good 2 six_turns
                            (start failing_then_good 2)))
     = flat_map (rows_at ClaimV failing_then_good)
         (settled (run ClaimV failing_then_good 2 six_turns (start failing_then_good 2))).
Proof.
  destruct (processWallet_catches_pipeline_errors wallet_1 signing_fails fresh
              (LibraryError "signing failed" JS.Undefined))
    as (Hcatch & _ & _ & Hpool).
  destruct (Hcatch eq_refl eq_refl) as [Hclaim Hcheck].
  split; [exact (Hclaim eq_refl) |].
  split; [exact (proj2 (Hcheck _ eq_refl)) |].
  apply (Hpool ClaimV failing_then_good 2%nat six_turns).
  - lia.
  - left. reflexivity.
  - reflexivity.
Defined.

(** C4, as stated, fails in two ways.  In the check-only variant the row
    of the [catch] clause has no status: a wallet that cannot sign gets
    the row with amount ["0"] and nothing else.  And a rejection with
    [undefined] is not caught to the end: the [catch] clause throws on
    its read of [error.message], and [processWallet] rejects without a
    row for the wallet. *)
Lemma processWallet_without_error_row :
  results (agent (snd (processWallet CheckV wallet_1 signing_fails fresh)))
  = [{| address := add wallet_1; amount := "0"; status := None |}]
  /\ processWallet ClaimV wallet_1 signing_rejects_undefined fresh
     = (Throw (TypeError "Cannot read properties of undefined (reading 'message')"),
        {| agent := new_MindAgent; trace := [EvSignMessage sign_message]; calls := 0 |}).
Proof. split; reflexivity. Qed.

(** C1: run on a list of two wallets with concurrency 2, the first
    wallet carrying a private key the wallet constructor refuses, the
    task pool of the claim variant saves its results with one row for
    two wallets: the [processWallet] of the first wallet rejects before
    its [try] block, [processOne] logs the error, and no row is
    written for it. *)
Theorem processWallets_drops_wallet_with_bad_key :
  main (run ClaimV bad_then_good 2
          [ResumeChain 0; ResumeMain; ResumeChain 1; ResumeChain 0; ResumeChain 1;
           ResumeMain]
          (start bad_then_good 2)) = Saved
  /\ settled (run ClaimV bad_then_good 2
                [ResumeChain 0; ResumeMain; ResumeChain 1; ResumeChain 0; ResumeChain 1;
                 ResumeMain]
                (start bad_then_good 2)) = [0; 1]%nat
  /\ results (pool_agent
                (run ClaimV bad_then_good 2
                   [ResumeChain 0; ResumeMain; ResumeChain 1; ResumeChain 0;
                    ResumeChain 1; ResumeMain]
                   (start bad_then_good 2)))
     = [{| address := add wallet_1; amount := "1.0"; status := Some success |}]
  /\ length bad_then_good = 2%nat.
Proof. repeat split. Qed.

(** * Further properties *)

(** ** Proof entries, further *)

Lemma digits_leading_zeros (k : nat) (s : string) :
  BigInt.digits 16 0 (JS.repeat "0" k ++ s) = BigInt.digits 16 0 s.
Proof.
  induction k as [|k IH]; [reflexivity |].
  change (JS.repeat "0" (S k) ++ s) with (String "0" (JS.repeat "0" k ++ s)).
  cbn [BigInt.digits]. exact IH.
Qed.

Lemma padStart_zeros (s : string) :
  JS.padStart 64 "0" s = JS.repeat "0" (64 - String.length s) ++ s.
Proof.
  destruct (Nat.le_gt_cases (String.length s) 64) as [Hle|Hgt].
  - now apply padStart_short.
  - rewrite padStart_long by lia.
    replace (64 - String.length s)%nat with 0%nat by lia. reflexivity.
Qed.

(** X1: the normalisation of a proof entry never changes the number the
    entry denotes: read as hexadecimal digits, the padded entry and the
    entry without its prefix give the same value, or are both refused. *)
Theorem formatProofEntry_keeps_value (p : string) :
  BigInt.digits 16 0 (paddedHex p) = BigInt.digits 16 0 (hexValue p).
Proof.
  unfold paddedHex. rewrite padStart_zeros. apply digits_leading_zeros.
Qed.

(** X2: a normalised entry is ["0x"] followed by 64 characters, or by as
    many as the entry had after its prefix when these were more: its
    length is 2 + max(64, length). *)
Theorem formatProofEntry_length (p : string) :
  formatProofEntry p = "0x" ++ paddedHex p
  /\ String.length (formatProofEntry p)
     = (2 + Nat.max 64 (String.length (hexValue p)))%nat.
Proof.
  split; [reflexivity |].
  unfold formatProofEntry, paddedHex. rewrite padStart_zeros.
  change (String.length ("0x" ++ ?x)) with (S (S (String.length x))).
  cbn [String.length append]. rewrite length_append, length_repeat_zero. lia.
Qed.

(** ** Building and sending the transaction, further *)

Lemma map_entries_strings (strs : list string) :
  map_entries (map JS.Str strs) = Return (map formatProofEntry strs).
Proof.
  induction strs as [|p strs IH]; [reflexivity |].
  cbn [map map_entries format_entry]. now rewrite IH.
Qed.

Lemma map_entries_returns (entries : list JS.value) (formatted : list string) :
  map_entries entries = Return formatted ->
  exists strs, entries = map JS.Str strs /\ formatted = map formatProofEntry strs.
Proof.
  revert formatted. induction entries as [|v entries IH]; intros formatted H.
  - injection H as <-. now exists [].
  - cbn [map_entries] in H. destruct v as [| |p|n|n]; cbn [format_entry] in H;
      try discriminate.
    destruct (map_entries entries) as [qs|e]; [|discriminate].
    injection H as <-. destruct (IH qs eq_refl) as (strs & -> & ->).
    now exists (p :: strs).
Qed.

Lemma map_entries_not_a_string (entries : list JS.value) (v : JS.value) :
  In v entries -> (forall p, v <> JS.Str p) ->
  exists what, map_entries entries = Throw (TypeError what).
Proof.
  intros Hin Hv. induction entries as [|w entries IH]; [contradiction |].
  cbn [map_entries].
  destruct w as [| |p|n|n]; cbn [format_entry]; eauto.
  destruct Hin as [<-|Hin]; [now destruct (Hv p) |].
  destruct (IH Hin) as (what & ->). eauto.
Qed.

(** X3: when [buildClaimTx] returns a transaction, the proof was an
    array of strings and the amount converted, and the transaction is
    what [populateTransaction] answered to one call with the converted
    amount and the proof normalised entry by entry, in order. *)
Theorem buildClaimTx_populates (c : Collaborators) (amount : JS.value)
    (proof : option (list JS.value)) (s : St) (txData : TxObject) :
  fst (buildClaimTx c amount proof s) = Return txData ->
  exists strs n,
    proof = Some (map JS.Str strs)
    /\ BigInt.of_value amount = Return n
    /\ populateTransaction c n (map formatProofEntry strs) = Return txData
    /\ trace (snd (buildClaimTx c amount proof s))
       = (trace s ++ [EvPopulateTransaction n (map formatProofEntry strs)])%list.
Proof.
  intros H.
  destruct (buildClaimTx_returns _ _ _ _ _ H) as (formatted & n & Hc & Hf & Hn & Hp).
  rewrite (buildClaimTx_run _ _ _ s _ _ _ Hc Hf Hn Hp). cbn [snd trace].
  destruct proof as [entries|]; [|discriminate].
  destruct (map_entries_returns _ _ Hf) as (strs & -> & ->).
  exists strs, n. auto.
Qed.

Lemma buildClaimTx_populates_witness :
  exists strs n,
    Some [JS.Str "abc"; JS.Str "0x01"] = Some (map JS.Str strs)
    /\ BigInt.of_value (JS.Str "1000000000000000000") = Return n
    /\ populateTransaction (answered no_data) n (map formatProofEntry strs) = Return ∅
    /\ trace (snd (buildClaimTx (answered no_data) (JS.Str "1000000000000000000")
                     (Some [JS.Str "abc"; JS.Str "0x01"]) fresh))
       = (trace fresh ++ [EvPopulateTransaction n (map formatProofEntry strs)])%list.
Proof.
  apply (buildClaimTx_populates (answered no_data) (JS.Str "1000000000000000000")
           (Some [JS.Str "abc"; JS.Str "0x01"]) fresh ∅).
  reflexivity.
Defined.

(** X4: [buildClaimTx] throws without calling [populateTransaction]
    when the proof is no array, when one of its entries is no string,
    or when the amount does not convert to a bigint. *)
Theorem buildClaimTx_refuses (c : Collaborators) (amount : JS.value)
    (proof : option (list JS.value)) (s : St) :
  proof = None
  \/ (exists entries v, proof = Some entries /\ In v entries /\ forall p, v <> JS.Str p)
  \/ (exists e, BigInt.of_value amount = Throw e) ->
  (exists e, fst (buildClaimTx c amount proof s) = Throw e)
  /\ snd (buildClaimTx c amount proof s) = s.
Proof.
  intros H.
  unfold buildClaimTx, try_catch, bind, construct, lift, emit, ret, throw.
  destruct (new_Contract c) as [e0|]; [eauto |].
  destruct H as [->|[(entries & v & -> & Hin & Hv)|(e & He)]].
  - cbn. eauto.
  - cbn [formattedProof].
    destruct (map_entries_not_a_string entries v Hin Hv) as (what & ->). eauto.
  - destruct (formattedProof proof) as [formatted|e1]; [|eauto].
    rewrite He. eauto.
Qed.

Lemma buildClaimTx_refuses_witness :
  (exists e, fst (buildClaimTx (answered no_data) (JS.Str "1000000000000000000")
                    (Some [JS.Str "abc"; JS.Num 7]) fresh) = Throw e)
  /\ snd (buildClaimTx (answered no_data) (JS.Str "1000000000000000000")
            (Some [JS.Str "abc"; JS.Num 7]) fresh) = fresh.
Proof.
  apply (buildClaimTx_refuses (answered no_data) (JS.Str "1000000000000000000")
           (Some [JS.Str "abc"; JS.Num 7]) fresh).
  right. left. exists [JS.Str "abc"; JS.Num 7], (JS.Num 7).
  split; [reflexivity |]. split; [right; left; reflexivity | discriminate].
Defined.

Lemma sendTransaction_trace (c : Collaborators) (txData : TxObject) (s : St) :
  trace (snd (sendTransaction c txData s))
  = (trace s ++ [EvSendTransaction (tx_request txData 1020000000)])%list
  \/ trace (snd (sendTransaction c txData s))
     = (trace s ++ [EvSendTransaction (tx_request txData 1020000000); EvWait])%list.
Proof.
  unfold sendTransaction. rewrite gasPrice_value.
  unfold try_catch, bind, lift, emit, ret, throw, read_property. cbn.
  destruct (sendTransaction_answer c (tx_request txData 1020000000)) as [[]|e]; cbn.
  2:{ left. now destruct (nullish e). }
  right. rewrite <- app_assoc.
  destruct (wait c) as [[st|]|e]; cbn.
  - now destruct (JS.strict_eq st (JS.Num 1)).
  - reflexivity.
  - now destruct (nullish e).
Qed.

(** X5: [sendTransaction] submits exactly one transaction, whatever its
    collaborators answer; the transaction has every property of [txData]
    other than [gasLimit], [gasPrice] and [type] unchanged, and these
    three replaced, also when [txData] carried values of its own for
    them. *)
Theorem sendTransaction_keeps_txData (c : Collaborators) (txData : TxObject) (s : St) :
  exists tx,
    submitted (trace (snd (sendTransaction c txData s)))
    = (submitted (trace s) ++ [tx])%list
    /\ fixed_gas tx
    /\ forall key : string,
        key <> "gasLimit" -> key <> "gasPrice" -> key <> "type" ->
        tx !! key = txData !! key.
Proof.
  exists (tx_request txData 1020000000). split; [| split].
  - destruct (sendTransaction_trace c txData s) as [-> | ->];
      rewrite submitted_app; cbn; reflexivity.
  - apply fixed_gas_tx_request.
  - intros key H1 H2 H3. unfold tx_request.
    rewrite !lookup_insert_ne by congruence. reflexivity.
Qed.

Lemma sendTransaction_keeps_txData_witness :
  exists tx,
    submitted (trace (snd (sendTransaction (answered no_data)
                             (<["to" := JS.Str "0xbdDE"]> (<["gasLimit" := JS.Num 21000]> ∅))
                             fresh)))
    = (submitted (trace fresh) ++ [tx])%list
    /\ fixed_gas tx
    /\ tx !! "to" = Some (JS.Str "0xbdDE").
Proof.
  destruct (sendTransaction_keeps_txData (answered no_data)
              (<["to" := JS.Str "0xbdDE"]> (<["gasLimit" := JS.Num 21000]> ∅)) fresh)
    as (tx & Hsub & Hgas & Hkeep).
  exists tx. split; [exact Hsub |]. split; [exact Hgas |].
  rewrite Hkeep by discriminate. apply lookup_insert_eq.
Defined.

(** ** The retry controller, further *)

Lemma delays_app (tr1 tr2 : list Event) :
  delays (tr1 ++ tr2) = (delays tr1 ++ delays tr2)%list.
Proof. unfold delays. apply flat_map_app. Qed.

Lemma total_wait_app (tr1 tr2 : list Event) :
  total_wait (tr1 ++ tr2) = total_wait tr1 + total_wait tr2.
Proof.
  unfold total_wait. rewrite delays_app.
  induction (delays tr1) as [|d ds IH]; cbn; lia.
Qed.

Lemma total_wait_after (k : Z) (e : Err) :
  1 <= k -> 0 <= total_wait (wait_after k e) <= 5000 + k * 2000.
Proof.
  intros Hk. unfold wait_after.
  destruct (nullish e); [cbn; lia |].
  destruct (JS.strict_eq _ _); [cbn; lia |].
  destruct (k <? maxRetries); cbn; lia.
Qed.

Lemma total_wait_rounds v c address signature :
  forall n first retryCount,
    0 <= retryCount ->
    0 <= total_wait (rounds_trace v c address signature first retryCount n)
    <= Z.of_nat n * (5000 + 2000 * retryCount)
       + 1000 * Z.of_nat n * (Z.of_nat n + 1).
Proof.
  induction n as [|n IH]; intros first retryCount Hrc; [cbn; lia |].
  cbn [rounds_trace].
  change (?ev :: ?l ++ ?r)%list with ([ev] ++ (l ++ r))%list.
  rewrite !total_wait_app.
  change (total_wait [EvSimpleRequest address signature (request_timeout v)]) with 0.
  specialize (IH (S first) (retryCount + 1) ltac:(lia)).
  assert (Hw : 0 <= total_wait
                      match attempt_response (simpleRequest c first) with
                      | Some _ => []
                      | None => wait_after (retryCount + 1)
                                  (attempt_error (simpleRequest c first))
                      end <= 5000 + (retryCount + 1) * 2000).
  { destruct (attempt_response _); [cbn; lia |]. apply total_wait_after. lia. }
  nia.
Qed.

(** X6: one call of [checkEligibilityWithRetry] makes at most 5 requests
    and spends at most 55000 ms waiting (7000 + 9000 + 11000 + 13000 +
    15000), whatever the request manager answers; it leaves the agent as
    it was. *)
Theorem checkEligibilityWithRetry_total_wait
    (v : Variant) (c : Collaborators) (address signature : string) (s : St) :
  exists tr,
    trace (snd (checkEligibilityWithRetry v c address signature s)) = (trace s ++ tr)%list
    /\ 0 <= total_wait tr <= 55000
    /\ (calls (snd (checkEligibilityWithRetry v c address signature s)) <= calls s + 5)%nat
    /\ agent (snd (checkEligibilityWithRetry v c address signature s)) = agent s.
Proof.
  unfold checkEligibilityWithRetry.
  destruct (retry_loop_spec v c address signature (Z.to_nat maxRetries) 0 None s)
    as (n & Hn & Hcalls & Hagent & Htrace & _); [lia | reflexivity |].
  change (Z.to_nat maxRetries) with 5%nat in *.
  exists (rounds_trace v c address signature (calls s) 0 n).
  split; [exact Htrace |]. split; [| split; [lia | exact Hagent]].
  pose proof (total_wait_rounds v c address signature n (calls s) 0 ltac:(lia)).
  nia.
Qed.

(** ** The wallet pipeline, further *)

Lemma emits_buildClaimTx_any P c amount proof :
  (forall n formatted, P (EvPopulateTransaction n formatted)) ->
  emits P (buildClaimTx c amount proof).
Proof. intros HP. unfold buildClaimTx. auto 10 with agent. Qed.

Lemma emits_sendTransaction_any P c txData :
  (forall tx, P (EvSendTransaction tx)) -> P EvWait ->
  emits P (sendTransaction c txData).
Proof. intros Hsend Hwait. unfold sendTransaction. auto 12 with agent. Qed.

Lemma emits_check_response P walletData r : emits P (check_response walletData r).
Proof. unfold check_response. destruct (data r); auto 8 with agent. Qed.

Lemma emits_claim_response P walletData c r :
  (forall n formatted, P (EvPopulateTransaction n formatted)) ->
  (forall tx, P (EvSendTransaction tx)) -> P EvWait ->
  emits P (claim_response walletData c r).
Proof.
  intros Hpop Hsend Hwait. unfold claim_response.
  destruct (no_claimable r); [auto 6 with agent |].
  destruct (data r) as [d|]; [| auto with agent].
  apply emits_bind; [auto with agent | intros proof].
  apply emits_bind; [now apply emits_buildClaimTx_any | intros txData].
  apply emits_bind; [now apply emits_sendTransaction_any | intros ok].
  destruct ok; auto 8 with agent.
Qed.

Lemma emits_processWallet_through P v walletData c
    (response : Response -> M unit) :
  P (EvSignMessage sign_message) ->
  (forall signature, P (EvSimpleRequest (add walletData) signature (request_timeout v))) ->
  (forall ms, P (EvDelay ms)) ->
  (forall r, emits P (response r)) ->
  (forall s, pipeline v walletData c s
             = bind (eligibility v walletData c) response s) ->
  emits P (processWallet v walletData c).
Proof.
  intros Hsign Hreq Hdelay Hresp Hpipe. unfold processWallet.
  apply emits_bind; [auto with agent | intros _].
  apply emits_bind; [auto with agent | intros _].
  apply emits_try_catch; [| auto 6 with agent].
  intros s. rewrite Hpipe. revert s.
  apply emits_bind; [now apply emits_eligibility | exact Hresp].
Qed.

(** X8: every request of a run of [processWallet] is made for the
    address of its wallet, with the time-out of 15000 ms in the claim
    variant and with no time-out in the check-only variant. *)
Theorem processWallet_requests
    (v : Variant) (walletData : WalletData) (c : Collaborators) (s : St) :
  exists tr,
    trace (snd (processWallet v walletData c s)) = (trace s ++ tr)%list
    /\ forall wallet signature timeout,
        In (EvSimpleRequest wallet signature timeout) tr ->
        wallet = add walletData
        /\ timeout = match v with ClaimV => Some 15000 | CheckV => None end.
Proof.
  assert (H : emits (requests_as v walletData) (processWallet v walletData c)).
  { destruct v.
    - apply emits_processWallet_through with (response := claim_response walletData c);
        try (intros; exact I); try (intros; split; reflexivity).
      + intros r. apply emits_claim_response; intros; exact I.
      + intros s0. apply (pipeline_eligibility ClaimV).
    - apply emits_processWallet_through with (response := check_response walletData);
        try (intros; exact I); try (intros; split; reflexivity).
      + intros r. apply emits_check_response.
      + intros s0. apply (pipeline_eligibility CheckV). }
  destruct (H s) as (tr & Htr & Hall). exists tr. split; [exact Htr |].
  intros wallet signature timeout Hin.
  rewrite Forall_forall in Hall. apply list_elem_of_In, Hall in Hin.
  destruct v; exact Hin.
Qed.

(** X9: the check-only variant never builds nor submits a transaction,
    whatever its collaborators answer. *)
Theorem processWallet_check_never_transacts
    (walletData : WalletData) (c : Collaborators) (s : St) :
  submitted (trace (snd (processWallet CheckV walletData c s))) = submitted (trace s)
  /\ populated (trace (snd (processWallet CheckV walletData c s))) = populated (trace s).
Proof.
  assert (H : emits no_transaction (processWallet CheckV walletData c)).
  { apply emits_processWallet_through with (response := check_response walletData);
      try (intros; exact I).
    - intros r. apply emits_check_response.
    - intros s0. apply (pipeline_eligibility CheckV). }
  destruct (H s) as (tr & Htr & Hq).
  apply no_transaction_quiet in Hq as [Hs Hp].
  rewrite Htr, submitted_app, populated_app, Hs, Hp, !app_nil_r. auto.
Qed.

Lemma processWallet_requests_witness :
  exists tr,
    trace (snd (processWallet ClaimV wallet_1 fifth_time_lucky fresh))
    = (trace fresh ++ tr)%list
    /\ forall wallet signature timeout,
        In (EvSimpleRequest wallet signature timeout) tr ->
        wallet = add wallet_1 /\ timeout = Some 15000.
Proof. exact (processWallet_requests ClaimV wallet_1 fifth_time_lucky fresh). Defined.

Lemma silent_trace {A} (m : M A) (s : St) :
  emits (fun _ => False) m -> trace (snd (m s)) = trace s.
Proof.
  intros H. destruct (H s) as (tr & -> & Hall).
  destruct Hall as [|ev tr []]. apply app_nil_r.
Qed.

Lemma buildClaimTx_thrown_trace c amount proof s e s1 :
  buildClaimTx c amount proof s = (Throw e, s1) ->
  trace s1 = trace s
  \/ exists n formatted, trace s1 = (trace s ++ [EvPopulateTransaction n formatted])%list.
Proof.
  unfold buildClaimTx, try_catch, bind, construct, lift, emit, ret, throw.
  destruct (new_Contract c); [intros H; injection H as _ <-; now left |].
  destruct (formattedProof proof) as [formatted|];
    [| intros H; injection H as _ <-; now left].
  destruct (BigInt.of_value amount) as [n|];
    [| intros H; injection H as _ <-; now left].
  cbn. destruct (populateTransaction c n formatted); [discriminate |].
  intros H. injection H as _ <-. right. now exists n, formatted.
Qed.

Lemma claim_response_trace walletData c r s :
  exists tail,
    trace (snd (claim_response walletData c r s)) = (trace s ++ tail)%list
    /\ (length (submitted tail) <= length (populated tail) <= 1)%nat.
Proof.
  unfold claim_response.
  destruct (no_claimable r).
  { exists []. cbn. rewrite app_nil_r. auto. }
  destruct (data r) as [d|].
  2:{ exists []. cbn. rewrite app_nil_r. auto. }
  unfold bind at 1. unfold lift at 1.
  destruct (JSON_parse c (data_proof d)) as [proof|].
  2:{ exists []. cbn. rewrite app_nil_r. auto. }
  unfold bind at 1.
  destruct (buildClaimTx c (data_amount d) proof s) as [[txData|e] s1] eqn:Hb.
  2:{ cbn [snd]. destruct (buildClaimTx_thrown_trace _ _ _ _ _ _ Hb)
        as [->|(n & formatted & ->)].
      - exists []. cbn. rewrite app_nil_r. auto.
      - eexists. split; [reflexivity |]. cbn. lia. }
  destruct (buildClaimTx_returns c (data_amount d) proof s txData)
    as (formatted & n & Hc & Hf & Hn & Hp); [now rewrite Hb |].
  rewrite (buildClaimTx_run _ _ _ s _ _ _ Hc Hf Hn Hp) in Hb.
  injection Hb as Hs1. symmetry in Hs1.
  unfold bind at 1.
  pose proof (sendTransaction_trace c txData s1) as Hs.
  destruct (sendTransaction c txData s1) as [[ok|e] s2]; cbn [snd] in Hs.
  2:{ cbn [snd]. destruct Hs as [-> | ->]; subst s1; cbn [trace];
        rewrite <- app_assoc; eexists; (split; [reflexivity |]); cbn; lia. }
  rewrite silent_trace by (destruct ok; auto 8 with agent).
  destruct Hs as [-> | ->]; subst s1; cbn [trace];
    rewrite <- app_assoc; eexists; (split; [reflexivity |]); cbn; lia.
Qed.

(** The [catch] clause of [processWallet] calls no collaborator. *)
Lemma catch_clause_trace v walletData err s :
  trace (snd ((read_property "message" err ;;;
               push (error_row v walletData) ;;;
               incr_failCount) s))
  = trace s.
Proof. unfold bind, read_property. destruct (nullish err); reflexivity. Qed.

(** X10: a run of [processWallet] in the claim variant builds at most
    one contract call and submits at most one transaction, and submits
    none without having built the call. *)
Theorem processWallet_claim_one_transaction
    (walletData : WalletData) (c : Collaborators) (s : St) :
  exists tr,
    trace (snd (processWallet ClaimV walletData c s)) = (trace s ++ tr)%list
    /\ (length (submitted tr) <= length (populated tr) <= 1)%nat.
Proof.
  destruct (new_RequestManager c) as [e|] eqn:H1.
  { destruct (processWallet_not_entered ClaimV walletData c s) as (e' & ->);
      [left; congruence |].
    exists []. cbn. rewrite app_nil_r. auto. }
  destruct (new_Wallet c) as [e|] eqn:H2.
  { destruct (processWallet_not_entered ClaimV walletData c s) as (e' & ->);
      [right; congruence |].
    exists []. cbn. rewrite app_nil_r. auto. }
  rewrite processWallet_entered by assumption.
  unfold try_catch. rewrite pipeline_eligibility. unfold bind at 1.
  destruct (emits_eligibility no_transaction ClaimV walletData c) with (s := s)
    as (tr0 & Htr0 & Hq); try (intros; exact I).
  apply no_transaction_quiet in Hq as [Hs0 Hp0].
  destruct (eligibility ClaimV walletData c s) as [[r|e] s1]; cbn [snd] in Htr0.
  - destruct (claim_response_trace walletData c r s1) as (tail & Htail & Hlen).
    exists (tr0 ++ tail)%list.
    rewrite submitted_app, populated_app, Hs0, Hp0. cbn [app]. split; [| exact Hlen].
    destruct (claim_response walletData c r s1) as [[[]|e] s2];
      cbn [snd] in Htail; cbv beta; [cbn [snd] | rewrite catch_clause_trace];
      rewrite Htail, Htr0, app_assoc; reflexivity.
  - exists tr0. cbv beta. rewrite catch_clause_trace, Hs0, Hp0.
    split; [exact Htr0 | cbn; lia].
Qed.

(** ** Rows, counters and total *)

Lemma pipeline_returned v walletData c s r :
  fst (eligibility v walletData c s) = Return r ->
  pipeline v walletData c s
  = match v with
    | ClaimV => claim_response walletData c r
    | CheckV => check_response walletData r
    end (snd (eligibility v walletData c s)).
Proof.
  intros He. rewrite pipeline_eligibility. unfold bind.
  destruct (eligibility v walletData c s) as [[r'|e'] s1]; cbn in *; [| discriminate].
  injection He as ->. now destruct v.
Qed.

(** X11: in the claim variant, the amount of a wallet whose transaction
    was submitted and whose receipt was read is added to [totalAmount]
    whether the receipt reports success or not, while the wallet is
    counted as a success only for the status 1. *)
Theorem processWallet_claim_total
    (walletData : WalletData) (c : Collaborators) (s : St)
    (r : Response) (d : Data) (proof : option (list JS.value))
    (formatted : list string) (n : Z) (txData : TxObject) (receipt_status : JS.value) :
  new_RequestManager c = None -> new_Wallet c = None ->
  fst (eligibility ClaimV walletData c s) = Return r ->
  no_claimable r = false -> data r = Some d ->
  JSON_parse c (data_proof d) = Return proof ->
  new_Contract c = None ->
  formattedProof proof = Return formatted ->
  BigInt.of_value (data_amount d) = Return n ->
  populateTransaction c n formatted = Return txData ->
  sendTransaction_answer c (tx_request txData 1020000000) = Return tt ->
  wait c = Return (Some receipt_status) ->
  totalAmount (agent (snd (processWallet ClaimV walletData c s)))
  = totalAmount (agent s) + n
  /\ successCount (agent (snd (processWallet ClaimV walletData c s)))
     = successCount (agent s)
       + (if JS.strict_eq receipt_status (JS.Num 1) then 1 else 0)
  /\ failCount (agent (snd (processWallet ClaimV walletData c s)))
     = failCount (agent s)
       + (if JS.strict_eq receipt_status (JS.Num 1) then 0 else 1).
Proof.
  intros H1 H2 He Hno Hd Hparse Hctr Hfmt Hbig Hpop Hsend Hwait.
  pose proof (keeps_eligibility ClaimV walletData c s) as Hk.
  pose proof (pipeline_returned ClaimV walletData c s r He) as Hpipe.
  set (s1 := snd (eligibility ClaimV walletData c s)) in *.
  unfold claim_response in Hpipe. rewrite Hno, Hd in Hpipe.
  unfold bind at 1 in Hpipe. unfold lift at 1 in Hpipe. rewrite Hparse in Hpipe.
  unfold bind at 1 in Hpipe.
  rewrite (buildClaimTx_run _ _ _ _ _ _ _ Hctr Hfmt Hbig Hpop) in Hpipe.
  unfold bind at 1 in Hpipe.
  rewrite (sendTransaction_run _ _ _ _ Hsend Hwait) in Hpipe.
  unfold add_totalAmount in Hpipe. rewrite Hbig in Hpipe.
  destruct (JS.strict_eq receipt_status (JS.Num 1));
    cbv beta iota zeta delta
      [bind push incr_successCount incr_failCount modify lift] in Hpipe;
    rewrite (processWallet_passed _ _ _ _ _ H1 H2 Hpipe);
    cbn [snd agent totalAmount successCount failCount];
    rewrite Hk; repeat split; lia.
Qed.

Lemma processWallet_claim_total_witness :
  totalAmount (agent (snd (processWallet ClaimV wallet_1
                             (answering None
                                (fun _ => Return (Some (granted (JS.Str "2500000000000000000"))))
                                (JS.Num 0)) fresh)))
  = totalAmount (agent fresh) + 2500000000000000000
  /\ successCount (agent (snd (processWallet ClaimV wallet_1
                                 (answering None
                                    (fun _ => Return (Some (granted (JS.Str "2500000000000000000"))))
                                    (JS.Num 0)) fresh)))
     = successCount (agent fresh) + 0
  /\ failCount (agent (snd (processWallet ClaimV wallet_1
                              (answering None
                                 (fun _ => Return (Some (granted (JS.Str "2500000000000000000"))))
                                 (JS.Num 0)) fresh)))
     = failCount (agent fresh) + 1.
Proof.
  exact (processWallet_claim_total wallet_1
           (answering None
              (fun _ => Return (Some (granted (JS.Str "2500000000000000000"))))
              (JS.Num 0)) fresh
           (granted (JS.Str "2500000000000000000"))
           {| data_amount := JS.Str "2500000000000000000"; data_proof := JS.Str "[]" |}
           (Some []) [] 2500000000000000000 ∅ (JS.Num 0)
           eq_refl eq_refl eq_refl eq_refl eq_refl eq_refl eq_refl eq_refl eq_refl
           eq_refl eq_refl eq_refl).
Defined.

Lemma falsy_or_zero_converts_to_0 (amount : JS.value) (n : Z) :
  JS.truthy amount && negb (JS.strict_eq amount (JS.Str "0")) = false ->
  BigInt.of_value amount = Return n -> n = 0.
Proof.
  destruct amount as [| |str|m|m]; cbn; try discriminate.
  - destruct (String.eqb_spec str "") as [->|Hne]; cbn.
    + intros _ H. now injection H as <-.
    + destruct (String.eqb_spec str "0") as [->|Hne0]; cbn; [| discriminate].
      intros _ H. now injection H as <-.
  - destruct (Z.eqb_spec m 0) as [->|]; cbn; [| discriminate].
    intros _ H. now injection H as <-.
  - destruct (Z.eqb_spec m 0) as [->|]; cbn; [| discriminate].
    intros _ H. now injection H as <-.
Qed.

(** X12: in the check-only variant, a response with a [data] object
    whose amount converts to a bigint gives the wallet exactly one row,
    with the formatted amount, counted as a success, and adds the amount
    to [totalAmount]. *)
Theorem processWallet_check_success
    (walletData : WalletData) (c : Collaborators) (s : St)
    (r : Response) (d : Data) (n : Z) :
  new_RequestManager c = None -> new_Wallet c = None ->
  fst (eligibility CheckV walletData c s) = Return r ->
  data r = Some d ->
  BigInt.of_value (data_amount d) = Return n ->
  results (agent (snd (processWallet CheckV walletData c s)))
  = (results (agent s)
     ++ [{| address := add walletData;
            amount := formatTokenAmount (data_amount d);
            status := None |}])%list
  /\ successCount (agent (snd (processWallet CheckV walletData c s)))
     = successCount (agent s) + 1
  /\ failCount (agent (snd (processWallet CheckV walletData c s))) = failCount (agent s)
  /\ totalAmount (agent (snd (processWallet CheckV walletData c s)))
     = totalAmount (agent s) + n.
Proof.
  intros H1 H2 He Hd Hbig.
  pose proof (keeps_eligibility CheckV walletData c s) as Hk.
  pose proof (pipeline_returned CheckV walletData c s r He) as Hpipe.
  set (s1 := snd (eligibility CheckV walletData c s)) in *.
  unfold check_response in Hpipe. rewrite Hd in Hpipe.
  destruct (JS.truthy (data_amount d)
            && negb (JS.strict_eq (data_amount d) (JS.Str "0"))) eqn:Hcond.
  - unfold add_totalAmount in Hpipe. rewrite Hbig in Hpipe.
    cbv beta iota zeta delta [bind push incr_successCount modify lift] in Hpipe.
    rewrite (processWallet_passed _ _ _ _ _ H1 H2 Hpipe).
    cbn [snd agent totalAmount successCount failCount results].
    rewrite Hk. repeat split.
  - pose proof (falsy_or_zero_converts_to_0 _ _ Hcond Hbig) as ->.
    cbv beta iota zeta delta [bind push incr_successCount modify ret] in Hpipe.
    rewrite (processWallet_passed _ _ _ _ _ H1 H2 Hpipe).
    cbn [snd agent totalAmount successCount failCount results].
    rewrite Hk. repeat split. lia.
Qed.

Lemma processWallet_check_success_witness :
  results (agent (snd (processWallet CheckV wallet_1
                         (answered (granted (JS.Str "1000000000000000000"))) fresh)))
  = (results (agent fresh)
     ++ [{| address := add wallet_1;
            amount := formatTokenAmount (JS.Str "1000000000000000000");
            status := None |}])%list
  /\ successCount (agent (snd (processWallet CheckV wallet_1
                                 (answered (granted (JS.Str "1000000000000000000"))) fresh)))
     = successCount (agent fresh) + 1
  /\ failCount (agent (snd (processWallet CheckV wallet_1
                              (answered (granted (JS.Str "1000000000000000000"))) fresh)))
     = failCount (agent fresh)
  /\ totalAmount (agent (snd (processWallet CheckV wallet_1
                                (answered (granted (JS.Str "1000000000000000000"))) fresh)))
     = totalAmount (agent fresh) + 1000000000000000000.
Proof.
  exact (processWallet_check_success wallet_1
           (answered (granted (JS.Str "1000000000000000000"))) fresh
           (granted (JS.Str "1000000000000000000"))
           {| data_amount := JS.Str "1000000000000000000"; data_proof := JS.Str "[]" |}
           1000000000000000000 eq_refl eq_refl eq_refl eq_refl eq_refl).
Defined.

(** ** The task pool, further *)

Lemma step_agent v wallets concurrentLimit ch p p' :
  step v wallets concurrentLimit ch p = Some p' ->
  pool_agent p' = pool_agent p
  \/ exists i, pool_agent p' = settle v wallets i (pool_agent p).
Proof.
  unfold step. destruct ch as [|k].
  - destruct (main p) as [i| |]; [| |discriminate].
    + intros H. injection H as <-. left. unfold seed.
      now destruct (processOne wallets (currentIndex p)).
    + destruct (all_returned (chains p)); [|discriminate].
      intros H. injection H as <-. now left.
  - destruct (chains p !! k) as [[i| |]|]; try discriminate.
    + intros H. injection H as <-. right. now exists i.
    + destruct (if (currentIndex p <? length wallets)%nat
                then processOne wallets (currentIndex p)
                else (Returned, currentIndex p)).
      intros H. injection H as <-. now left.
Qed.

Lemma start_agent wallets concurrentLimit :
  pool_agent (start wallets concurrentLimit) = new_MindAgent.
Proof.
  unfold start, seed. destruct (0 <? seeds wallets concurrentLimit)%nat; [| reflexivity].
  now destruct (processOne wallets _).
Qed.

(** X13: in the claim variant the counters add up to the number of rows
    at every moment of a run of the task pool, whatever the wallets, the
    answers of their collaborators and the order of completion. *)
Theorem processWallets_claim_counted
    (wallets : list Job) (concurrentLimit : nat) (p : Pool) :
  reachable ClaimV wallets concurrentLimit p ->
  successCount (pool_agent p) + failCount (pool_agent p)
  = Z.of_nat (length (results (pool_agent p))).
Proof.
  induction 1 as [|ch p p' _ IH Hstep].
  - rewrite start_agent. reflexivity.
  - apply step_agent in Hstep as [-> | (i & ->)]; [exact IH |].
    unfold settle. destruct (wallets !! i) as [job|]; [| exact IH].
    apply (processWallet_claim_counted (walletData job) (collaborators job)
             {| agent := pool_agent p; trace := []; calls := 0 |}).
    exact IH.
Qed.

Lemma rows_of_claim_rows (job : Job) : Forall claim_row (rows_of ClaimV job).
Proof.
  rewrite rows_of_fresh.
  destruct (new_RequestManager (collaborators job)) as [e|] eqn:H1.
  { destruct (processWallet_not_entered ClaimV (walletData job) (collaborators job) fresh)
      as (e' & ->); [left; congruence | constructor]. }
  destruct (new_Wallet (collaborators job)) as [e|] eqn:H2.
  { destruct (processWallet_not_entered ClaimV (walletData job) (collaborators job) fresh)
      as (e' & ->); [right; congruence | constructor]. }
  destruct (pipeline ClaimV (walletData job) (collaborators job) fresh)
    as [[[]|e] s1] eqn:Hp.
  - rewrite (processWallet_passed _ _ _ _ _ H1 H2 Hp). cbn [snd].
    apply pipeline_claim_cases in Hp.
    destruct Hp as [->|(amount & ok & n & ->)].
    + constructor; [| constructor]. left. split; reflexivity.
    + unfold with_claim.
      destruct ok; cbn; (constructor; [| constructor]); unfold claim_row; cbn; auto.
  - destruct (nullish e) eqn:Hnull.
    + rewrite (processWallet_escaped _ _ _ _ _ _ H1 H2 Hp Hnull). cbn [snd].
      apply pipeline_claim_cases in Hp. cbn in Hp. rewrite Hp. constructor.
    + rewrite (processWallet_caught _ _ _ _ _ _ H1 H2 Hp Hnull).
      cbn [snd set_agent agent].
      apply pipeline_claim_cases in Hp. cbn in Hp. rewrite Hp.
      constructor; [| constructor]. right. left. split; reflexivity.
Qed.

(** X14: every row a run of the claim variant records carries a status,
    and its amount is ["0"] whenever the status is [no_eligibility] or
    [error]. *)
Theorem processWallets_claim_rows
    (wallets : list Job) (concurrentLimit : nat) (p : Pool) :
  reachable ClaimV wallets concurrentLimit p ->
  forall row, In row (results (pool_agent p)) ->
    (status row = Some no_eligibility /\ amount row = "0")
    \/ (status row = Some error /\ amount row = "0")
    \/ status row = Some success
    \/ status row = Some failed.
Proof.
  intros Hreach row Hin.
  destruct (reachable_invariant _ _ _ _ Hreach) as (_ & _ & _ & Hres & _).
  rewrite Hres in Hin. apply in_flat_map in Hin as (i & _ & Hin).
  unfold rows_at in Hin. destruct (wallets !! i) as [job|]; [| contradiction].
  pose proof (rows_of_claim_rows job) as Hall.
  rewrite Forall_forall in Hall. apply (Hall row). now apply list_elem_of_In.
Qed.

Lemma length_in_flight (cs : list Chain) : (length (in_flight cs) <= length cs)%nat.
Proof.
  induction cs as [|c cs IH]; [reflexivity |].
  destruct c;
    rewrite ?in_flight_processing, ?in_flight_cooling, ?in_flight_returned;
    cbn [length]; lia.
Qed.

Lemma chains_bound v wallets concurrentLimit p :
  reachable v wallets concurrentLimit p ->
  match main p with
  | Seeding i => length (chains p) = i /\ (i < seeds wallets concurrentLimit)%nat
  | _ => length (chains p) = seeds wallets concurrentLimit
  end.
Proof.
  induction 1 as [|ch p p' _ IH Hstep].
  - unfold start, seed.
    destruct (Nat.ltb_spec 0 (seeds wallets concurrentLimit)) as [Hpos|Hzero].
    + destruct (processOne wallets _) as [chain cursor]. cbn [main chains app length].
      destruct (Nat.ltb_spec 1 (seeds wallets concurrentLimit)); lia.
    + cbn. lia.
  - unfold step in Hstep. destruct ch as [|k].
    + destruct (main p) as [i| |] eqn:Hm; [| |discriminate].
      * injection Hstep as <-. unfold seed.
        destruct (processOne wallets _) as [chain cursor].
        cbn [main chains]. rewrite length_app. cbn [length].
        destruct (Nat.ltb_spec (S i) (seeds wallets concurrentLimit)); lia.
      * destruct (all_returned (chains p)); [|discriminate].
        injection Hstep as <-. exact IH.
    + destruct (chains p !! k) as [[i| |]|]; try discriminate.
      * injection Hstep as <-. cbn [main chains]. now rewrite length_insert.
      * destruct (if (currentIndex p <? length wallets)%nat
                  then processOne wallets (currentIndex p)
                  else (Returned, currentIndex p)).
        injection Hstep as <-. cbn [main chains]. now rewrite length_insert.
Qed.

(** X15: at every moment of a run at most [min(concurrentLimit, N)]
    wallets are in flight: the pool never has more chains than that, and
    a chain processes one wallet at a time. *)
Theorem processWallets_concurrency_bound
    (v : Variant) (wallets : list Job) (concurrentLimit : nat) (p : Pool) :
  reachable v wallets concurrentLimit p ->
  (length (in_flight (chains p)) <= length (chains p)
   <= Nat.min concurrentLimit (length wallets))%nat.
Proof.
  intros Hreach. split; [apply length_in_flight |].
  pose proof (chains_bound _ _ _ _ Hreach) as H. fold (seeds wallets concurrentLimit).
  destruct (main p); lia.
Qed.

Lemma no_slot_pool v wallets concurrentLimit p :
  seeds wallets concurrentLimit = 0%nat ->
  reachable v wallets concurrentLimit p ->
  chains p = [] /\ settled p = [] /\ pool_agent p = new_MindAgent
  /\ currentIndex p = 0%nat /\ (main p = Joining \/ main p = Saved).
Proof.
  intros Hseeds. induction 1 as [|ch p p' _ IH Hstep].
  - unfold start. rewrite Hseeds. cbn. auto 6.
  - destruct IH as (Hc & Hs & Ha & Hi & Hm). unfold step in Hstep.
    destruct ch as [|k].
    + destruct Hm as [Hm|Hm]; rewrite Hm in Hstep; [| discriminate].
      rewrite Hc in Hstep. cbn in Hstep. injection Hstep as <-. cbn. auto 6.
    + rewrite Hc in Hstep. discriminate.
Qed.

(** X16: with a concurrency of 0, or an empty wallet list, the run
    processes no wallet at all: it goes straight to saving an empty
    result table, also when the list holds wallets. *)
Theorem processWallets_without_slots
    (v : Variant) (wallets : list Job) (concurrentLimit : nat) (p : Pool) :
  concurrentLimit = 0%nat \/ wallets = [] ->
  reachable v wallets concurrentLimit p ->
  settled p = [] /\ results (pool_agent p) = []
  /\ main (run v wallets concurrentLimit [ResumeMain] (start wallets concurrentLimit))
     = Saved.
Proof.
  intros H Hreach.
  assert (Hseeds : seeds wallets concurrentLimit = 0%nat).
  { unfold seeds. destruct H as [-> | ->]; cbn; lia. }
  destruct (no_slot_pool v _ _ _ Hseeds Hreach) as (_ & Hs & Ha & _).
  rewrite Hs, Ha. repeat split.
  unfold start. rewrite Hseeds. reflexivity.
Qed.

Lemma processWallets_without_slots_witness :
  settled (start bad_then_good 0) = []
  /\ results (pool_agent (start bad_then_good 0)) = []
  /\ main (run ClaimV bad_then_good 0 [ResumeMain] (start bad_then_good 0)) = Saved.
Proof.
  apply (processWallets_without_slots ClaimV bad_then_good 0 (start bad_then_good 0)).
  - left. reflexivity.
  - apply reachable_start.
Defined.

Lemma turns_taken_left v wallets concurrentLimit schedule : forall p,
  (turns_taken v wallets concurrentLimit schedule p
   + turns_left wallets concurrentLimit (run v wallets concurrentLimit schedule p)
   <= turns_left wallets concurrentLimit p)%nat.
Proof.
  induction schedule as [|ch schedule IH]; intros p; [cbn; lia |].
  cbn [turns_taken run].
  destruct (step v wallets concurrentLimit ch p) as [p'|] eqn:Hstep.
  - apply step_turns_left in Hstep. specialize (IH p'). lia.
  - apply IH.
Qed.

Lemma turns_left_start wallets concurrentLimit :
  (turns_left wallets concurrentLimit (start wallets concurrentLimit)
   <= 3 * length wallets + concurrentLimit + 1)%nat.
Proof.
  unfold start, seed, processOne, turns_left.
  destruct (Nat.ltb_spec 0 (seeds wallets concurrentLimit)) as [Hpos|Hzero].
  - assert (0 < length wallets)%nat by (unfold seeds in Hpos; lia).
    cbn [currentIndex]. destruct (Nat.leb_spec (length wallets) 0); [lia |].
    cbn [currentIndex chains main app map list_sum fold_right chain_weight].
    unfold list_sum. cbn [fold_right].
    destruct (Nat.ltb_spec 1 (seeds wallets concurrentLimit));
      cbn [main_weight]; unfold seeds in *; lia.
  - cbn. lia.
Qed.

(** X17: under every schedule the task pool resumes its own tasks at
    most [3 N + C + 1] times in a run, the settlement of a wallet's
    [processWallet] counting as one resumption.  The bound counts the
    steps of the pool and not the time a pipeline takes: a request that
    never settles leaves its chain where it is. *)
Theorem processWallets_turn_bound
    (v : Variant) (wallets : list Job) (concurrentLimit : nat)
    (schedule : list Choice) :
  (turns_taken v wallets concurrentLimit schedule (start wallets concurrentLimit)
   <= 3 * length wallets + concurrentLimit + 1)%nat.
Proof.
  pose proof (turns_taken_left v wallets concurrentLimit schedule
                (start wallets concurrentLimit)).
  pose proof (turns_left_start wallets concurrentLimit). lia.
Qed.

Lemma six_turns_reachable (v : Variant) (wallets : list Job) :
  reachable v wallets 2 (run v wallets 2 six_turns (start wallets 2)).
Proof. apply run_reachable, reachable_start. Qed.

Lemma processWallets_claim_counted_witness :
  successCount (pool_agent (run ClaimV bad_then_good 2 six_turns (start bad_then_good 2)))
  + failCount (pool_agent (run ClaimV bad_then_good 2 six_turns (start bad_then_good 2)))
  = Z.of_nat (length (results (pool_agent
                                 (run ClaimV bad_then_good 2 six_turns
                                    (start bad_then_good 2))))).
Proof.
  apply (processWallets_claim_counted bad_then_good 2). apply six_turns_reachable.
Defined.

Lemma processWallets_claim_rows_witness :
  (status {| address := add wallet_1; amount := "1.0"; status := Some success |}
   = Some no_eligibility
   /\ amount {| address := add wallet_1; amount := "1.0"; status := Some success |} = "0")
  \/ (status {| address := add wallet_1; amount := "1.0"; status := Some success |}
      = Some error
      /\ amount {| address := add wallet_1; amount := "1.0"; status := Some success |} = "0")
  \/ status {| address := add wallet_1; amount := "1.0"; status := Some success |}
     = Some success
  \/ status {| address := add wallet_1; amount := "1.0"; status := Some success |}
     = Some failed.
Proof.
  apply (processWallets_claim_rows bad_then_good 2
           (run ClaimV bad_then_good 2 six_turns (start bad_then_good 2))).
  - apply six_turns_reachable.
  - left. reflexivity.
Defined.

Lemma processWallets_concurrency_bound_witness :
  (length (in_flight (chains (run ClaimV two_good 2 [ResumeMain] (start two_good 2))))
   <= length (chains (run ClaimV two_good 2 [ResumeMain] (start two_good 2)))
   <= Nat.min 2 (length two_good))%nat.
Proof.
  apply (processWallets_concurrency_bound ClaimV two_good 2).
  apply run_reachable, reachable_start.
Defined.

Lemma sequential_pool v wallets p :
  reachable v wallets 1 p ->
  (forall i, main p <> Seeding i)
  /\ (length (chains p) <= 1)%nat
  /\ (settled p ++ in_flight (chains p))%list = seq 0 (currentIndex p).
Proof.
  induction 1 as [|ch p p' _ IH Hstep].
  - unfold start, seed, processOne, seeds.
    destruct (length wallets) as [|n] eqn:HN; cbn; repeat split; try lia; discriminate.
  - destruct IH as (Hmain & Hlen & Hseq). unfold step in Hstep.
    destruct ch as [|k].
    + destruct (main p) as [i| |] eqn:Hm; [now destruct (Hmain i) | | discriminate].
      destruct (all_returned (chains p)); [|discriminate].
      injection Hstep as <-. cbn. repeat split; try assumption; discriminate.
    + destruct (chains p) as [|c [|c' cs]] eqn:Hcs; [discriminate | | cbn in Hlen; lia].
      destruct k as [|k]; [| discriminate]. cbn [lookup list_lookup] in Hstep.
      destruct c as [i| |]; [| | discriminate].
      * injection Hstep as <-. cbn [main chains settled currentIndex].
        repeat split; [exact Hmain | cbn; lia |].
        rewrite in_flight_processing in Hseq. rewrite in_flight_cooling.
        cbn [in_flight flat_map] in *. now rewrite app_nil_r.
      * rewrite in_flight_cooling in Hseq. cbn [in_flight flat_map] in Hseq.
        rewrite app_nil_r in Hseq. unfold processOne in Hstep.
        destruct (Nat.ltb_spec (currentIndex p) (length wallets)).
        -- destruct (Nat.leb_spec (length wallets) (currentIndex p)); [lia |].
           injection Hstep as <-. cbn [main chains settled currentIndex].
           repeat split; [exact Hmain | cbn; lia |].
           rewrite in_flight_processing. cbn [in_flight flat_map].
           rewrite seq_S, Hseq. reflexivity.
        -- injection Hstep as <-. cbn [main chains settled currentIndex].
           repeat split; [exact Hmain | cbn; lia |].
           rewrite in_flight_returned. cbn [in_flight flat_map].
           now rewrite app_nil_r.
Qed.

(** X18: with a concurrency of 1 the wallets are processed in the order
    of the list, and the saved results are the rows of the wallets in
    that order. *)
Theorem processWallets_sequential_order
    (v : Variant) (wallets : list Job) (p : Pool) :
  reachable v wallets 1 p -> main p = Saved ->
  settled p = seq 0 (length wallets)
  /\ results (pool_agent p) = flat_map (rows_of v) wallets.
Proof.
  intros Hreach Hm.
  destruct (sequential_pool _ _ _ Hreach) as (_ & _ & Hseq).
  destruct (reachable_invariant _ _ _ _ Hreach)
    as (Hle & Hret & _ & Hres & Hne & Hsaved).
  specialize (Hsaved Hm).
  rewrite (all_returned_in_flight _ Hsaved), app_nil_r in Hseq.
  assert (Hcursor : currentIndex p = length wallets).
  { destruct (length wallets) as [|n] eqn:HN; [lia |].
    apply Nat.le_antisymm; [exact Hle |]. apply Hret.
    apply all_returned_In; [exact Hsaved |]. apply Hne.
    unfold seeds. rewrite HN. cbn. lia. }
  rewrite Hcursor in Hseq. split; [exact Hseq |].
  rewrite Hres, Hseq. apply flat_map_rows_seq.
Qed.

Lemma processWallets_sequential_order_witness :
  settled (run ClaimV bad_then_good 1
             [ResumeChain 0; ResumeChain 0; ResumeChain 0; ResumeChain 0; ResumeMain]
             (start bad_then_good 1))
  = seq 0 (length bad_then_good)
  /\ results (pool_agent
                (run ClaimV bad_then_good 1
                   [ResumeChain 0; ResumeChain 0; ResumeChain 0; ResumeChain 0; ResumeMain]
                   (start bad_then_good 1)))
     = flat_map (rows_of ClaimV) bad_then_good.
Proof.
  apply (processWallets_sequential_order ClaimV bad_then_good).
  - apply run_reachable, reachable_start.
  - reflexivity.
Defined.

(** X19: in a run that has saved its results, the pool having been
    given at least one slot and one wallet, [processWallet] has settled
    exactly once for every wallet of the list, in every variant and
    whatever the pipelines did. *)
Theorem processWallets_settles_each_once
    (v : Variant) (wallets : list Job) (concurrentLimit : nat) (p : Pool) :
  (1 <= concurrentLimit)%nat -> (1 <= length wallets)%nat ->
  reachable v wallets concurrentLimit p -> main p = Saved ->
  currentIndex p = length wallets
  /\ length (settled p) = length wallets
  /\ NoDup (settled p)
  /\ forall i, In i (settled p) <-> (i < length wallets)%nat.
Proof.
  intros HC HN Hreach Hm.
  destruct (saved_pool v wallets concurrentLimit p HC HN Hreach Hm)
    as (Hcursor & Hperm & _).
  split; [exact Hcursor |]. split; [| split].
  - rewrite (Permutation_length Hperm). apply length_seq.
  - rewrite Hperm. apply NoDup_seq.
  - intros i. split.
    + intros Hin. apply (Permutation_in _ Hperm) in Hin. apply in_seq in Hin. lia.
    + intros Hi. apply (Permutation_in _ (Permutation_sym Hperm)). apply in_seq. lia.
Qed.

Lemma processWallets_settles_each_once_witness :
  currentIndex (run ClaimV bad_then_good 2 six_turns (start bad_then_good 2))
  = length bad_then_good
  /\ length (settled (run ClaimV bad_then_good 2 six_turns (start bad_then_good 2)))
     = length bad_then_good
  /\ NoDup (settled (run ClaimV bad_then_good 2 six_turns (start bad_then_good 2)))
  /\ forall i,
      In i (settled (run ClaimV bad_then_good 2 six_turns (start bad_then_good 2)))
      <-> (i < length bad_then_good)%nat.
Proof.
  apply (processWallets_settles_each_once ClaimV bad_then_good 2).
  - lia.
  - cbn. lia.
  - apply six_turns_reachable.
  - reflexivity.
Defined.

Lemma answering_rejects_with_errors wallet requests status :
  rejects_with_errors (answering wallet requests status).
Proof. split; [| split; [| split]]; cbn; intros; discriminate. Qed.

Lemma processWallets_one_row_per_constructible_wallet_witness :
  length (results (pool_agent (run ClaimV two_good 2 six_turns (start two_good 2))))
  = length two_good
  /\ Permutation
       (results (pool_agent (run ClaimV two_good 2 six_turns (start two_good 2))))
       (flat_map (rows_of ClaimV) two_good).
Proof.
  apply (processWallets_one_row_per_constructible_wallet two_good 2).
  - cbn. lia.
  - repeat constructor.
  - repeat constructor; apply answering_rejects_with_errors.
  - apply six_turns_reachable.
  - reflexivity.
Defined.

Lemma processWallet_check_double_row_witness :
  results (agent (snd (processWallet CheckV wallet_1
                         (answered (granted (JS.Str "1.5"))) fresh)))
  = (results (agent fresh) ++ [checked_row wallet_1 "0"; checked_row wallet_1 "0"])%list
  /\ successCount (agent (snd (processWallet CheckV wallet_1
                                 (answered (granted (JS.Str "1.5"))) fresh)))
     = successCount (agent fresh)
  /\ failCount (agent (snd (processWallet CheckV wallet_1
                              (answered (granted (JS.Str "1.5"))) fresh)))
     = failCount (agent fresh) + 1.
Proof.
  exact (processWallet_check_double_row wallet_1 (answered (granted (JS.Str "1.5"))) fresh
           (granted (JS.Str "1.5"))
           {| data_amount := JS.Str "1.5"; data_proof := JS.Str "[]" |}
           (SyntaxError "Cannot convert string to a BigInt")
           eq_refl eq_refl eq_refl eq_refl eq_refl eq_refl eq_refl).
Defined.

(** ** Saving the results *)

Lemma count_char_append (ch : ascii) (s t : string) :
  count_char ch (s ++ t) = (count_char ch s + count_char ch t)%nat.
Proof.
  induction s as [|a s IH]; [reflexivity |].
  change (String a s ++ t) with (String a (s ++ t)).
  cbn [count_char]. rewrite IH. lia.
Qed.

Lemma count_char_status (st : option Status) :
  count_char (ascii_of_nat 10) (status_text st) = 0%nat
  /\ count_char "," (status_text st) = 0%nat.
Proof. destruct st as [[| | |]|]; split; reflexivity. Qed.

Lemma csvContent_snoc (v : Variant) (rows : list WalletOutcome) (row : WalletOutcome) :
  csvContent v (rows ++ [row]) = csvContent v rows ++ csv_line v row.
Proof. unfold csvContent. now rewrite fold_left_app. Qed.

Lemma count_char_csv_line (v : Variant) (row : WalletOutcome) :
  plain_row row ->
  count_char (ascii_of_nat 10) (csv_line v row) = 1%nat
  /\ count_char "," (csv_line v row)
     = match v with ClaimV => 2%nat | CheckV => 1%nat end.
Proof.
  intros (H1 & H2 & H3 & H4).
  destruct (count_char_status (status row)) as [Hs1 Hs2].
  destruct v; unfold csv_line; rewrite !count_char_append, ?H1, ?H2, ?H3, ?H4, ?Hs1, ?Hs2;
    split; reflexivity.
Qed.

(** X20: the table [saveResults] writes has, after its header line, one
    line per recorded row, in the order of the rows, with three columns
    in the claim variant and two in the check-only variant, provided no
    address or amount holds a comma or a line feed; and [saveResults]
    returns normally also when the file cannot be written. *)
Theorem saveResults_table
    (v : Variant) (writeFile : string -> string -> Outcome unit) (a : Agent) :
  Forall plain_row (results a) ->
  fst (saveResults v writeFile a) = (results_file v, csvContent v (results a))
  /\ snd (saveResults v writeFile a) = Return tt
  /\ count_char (ascii_of_nat 10) (csvContent v (results a)) = S (length (results a))
  /\ count_char "," (csvContent v (results a))
     = (match v with ClaimV => 2 | CheckV => 1 end * S (length (results a)))%nat.
Proof.
  intros Hplain. split; [reflexivity |]. split.
  { unfold saveResults. cbn [snd]. now destruct (writeFile _ _). }
  induction (results a) as [|row rows IH] using rev_ind.
  - destruct v; split; reflexivity.
  - apply Forall_app in Hplain as [Hrows Hrow].
    apply Forall_cons_iff in Hrow as [Hrow _].
    destruct (IH Hrows) as [IH1 IH2].
    destruct (count_char_csv_line v row Hrow) as [Hl Hc].
    rewrite csvContent_snoc, !count_char_append, IH1, IH2, Hl, Hc, length_app.
    cbn [length]. destruct v; split; lia.
Qed.

Lemma saveResults_table_witness :
  fst (saveResults ClaimV (fun _ _ => Throw (LibraryError "EACCES" JS.Undefined))
         (pool_agent (run ClaimV two_good 2 six_turns (start two_good 2))))
  = (results_file ClaimV,
     csvContent ClaimV
       (results (pool_agent (run ClaimV two_good 2 six_turns (start two_good 2)))))
  /\ snd (saveResults ClaimV (fun _ _ => Throw (LibraryError "EACCES" JS.Undefined))
            (pool_agent (run ClaimV two_good 2 six_turns (start two_good 2))))
     = Return tt
  /\ count_char (ascii_of_nat 10)
       (csvContent ClaimV
          (results (pool_agent (run ClaimV two_good 2 six_turns (start two_good 2)))))
     = S (length (results (pool_agent (run ClaimV two_good 2 six_turns
                                         (start two_good 2)))))
  /\ count_char ","
       (csvContent ClaimV
          (results (pool_agent (run ClaimV two_good 2 six_turns (start two_good 2)))))
     = (2 * S (length (results (pool_agent (run ClaimV two_good 2 six_turns
                                              (start two_good 2))))))%nat.
Proof.
  apply (saveResults_table ClaimV).
  repeat constructor.
Defined.

(** ** Signature and waits *)

Lemma emits_eligibility_signed v walletData c :
  emits (signed_by c) (eligibility v walletData c).
Proof.
  intros s. unfold eligibility, createSignature, bind, try_catch, emit, lift, throw.
  cbn. destruct (signMessage c) as [signature|e] eqn:Hsig.
  - destruct (emits_retry_loop (signed_by c) v c (add walletData) signature)
      with (rounds := Z.to_nat maxRetries) (retryCount := 0) (lastError := @None Err)
           (s := {| agent := agent s; trace := trace s ++ [EvSignMessage sign_message];
                    calls := calls s |})
      as (tr & Htr & Hall); [exact Hsig | intros; exact I |].
    exists (EvSignMessage sign_message :: tr). unfold checkEligibilityWithRetry.
    rewrite Htr. cbn [trace]. rewrite <- app_assoc. split; [reflexivity |].
    constructor; [exact I | exact Hall].
  - exists [EvSignMessage sign_message]. cbn. split; [reflexivity |].
    constructor; [exact I | constructor].
Qed.

Lemma emits_processWallet_signed v walletData c :
  emits (signed_by c) (processWallet v walletData c).
Proof.
  unfold processWallet.
  apply emits_bind; [auto with agent | intros _].
  apply emits_bind; [auto with agent | intros _].
  apply emits_try_catch; [| auto 6 with agent].
  intros s. rewrite pipeline_eligibility. revert s.
  apply emits_bind; [apply emits_eligibility_signed |].
  intros r. destruct v.
  - apply emits_claim_response; intros; exact I.
  - apply emits_check_response.
Qed.

Lemma signed_app (tr1 tr2 : list Event) :
  signed (tr1 ++ tr2) = (signed tr1 ++ signed tr2)%list.
Proof. unfold signed. apply flat_map_app. Qed.

Lemma no_signing_signed (tr : list Event) : Forall no_signing tr -> signed tr = [].
Proof.
  induction 1 as [|ev tr Hev _ IH]; [reflexivity |].
  destruct ev; cbn in *; try contradiction; exact IH.
Qed.

(** The [try] block from the signature on. *)
Lemma pipeline_from_signature v walletData c s :
  pipeline v walletData c s
  = let s0 := {| agent := agent s; trace := trace s ++ [EvSignMessage sign_message];
                 calls := calls s |} in
    match signMessage c with
    | Return signature =>
        bind (checkEligibilityWithRetry v c (add walletData) signature)
          (match v with
           | ClaimV => claim_response walletData c
           | CheckV => check_response walletData
           end) s0
    | Throw e => (Throw e, s0)
    end.
Proof.
  rewrite pipeline_eligibility.
  unfold eligibility, createSignature, bind, try_catch, emit, lift, throw.
  cbn. now destruct (signMessage c).
Qed.

(** Past the signature the [try] block does not sign again. *)
Lemma pipeline_signs_once v walletData c s :
  exists tr,
    trace (snd (pipeline v walletData c s))
    = (trace s ++ EvSignMessage sign_message :: tr)%list
    /\ Forall no_signing tr.
Proof.
  rewrite pipeline_from_signature. cbv zeta.
  destruct (signMessage c) as [signature|e].
  2:{ exists []. split; [reflexivity | constructor]. }
  assert (H : emits no_signing
                (bind (checkEligibilityWithRetry v c (add walletData) signature)
                   (match v with
                    | ClaimV => claim_response walletData c
                    | CheckV => check_response walletData
                    end))).
  { apply emits_bind.
    - apply emits_retry_loop; intros; exact I.
    - intros r. destruct v.
      + apply emits_claim_response; intros; exact I.
      + apply emits_check_response. }
  match goal with |- context [bind _ _ ?s0] => destruct (H s0) as (tr & Htr & Hall) end.
  exists tr. rewrite Htr. cbn [trace]. rewrite <- app_assoc. split; [reflexivity | exact Hall].
Qed.

(** X21: the wallet signs at most once in a run of [processWallet], and
    exactly once, the fixed message, when both collaborators are built;
    every request of the run, retries included, carries the signature the
    wallet gave; when signing throws, the run makes no request at all. *)
Theorem processWallet_signature
    (v : Variant) (walletData : WalletData) (c : Collaborators) (s : St) :
  exists tr,
    trace (snd (processWallet v walletData c s)) = (trace s ++ tr)%list
    /\ (length (signed tr) <= 1)%nat
    /\ (new_RequestManager c = None -> new_Wallet c = None ->
        signed tr = [sign_message])
    /\ (forall wallet signature timeout,
          In (EvSimpleRequest wallet signature timeout) tr ->
          signMessage c = Return signature)
    /\ ((exists e, signMessage c = Throw e) ->
        calls (snd (processWallet v walletData c s)) = calls s).
Proof.
  destruct (emits_processWallet_signed v walletData c s) as (tr & Htr & Hall).
  exists tr. split; [exact Htr |].
  assert (Hsigned : new_RequestManager c = None -> new_Wallet c = None ->
                    signed tr = [sign_message]).
  { intros H1 H2.
    destruct (pipeline_signs_once v walletData c s) as (tr' & Htr' & Hno).
    assert (Heq : trace (snd (processWallet v walletData c s))
                  = trace (snd (pipeline v walletData c s))).
    { rewrite processWallet_entered by assumption. unfold try_catch.
      destruct (pipeline v walletData c s) as [[[]|e] s1]; [reflexivity |].
      cbv beta. now rewrite catch_clause_trace. }
    rewrite Heq, Htr' in Htr. apply app_inv_head in Htr. subst tr.
    change (EvSignMessage sign_message :: tr')
      with ([EvSignMessage sign_message] ++ tr')%list.
    rewrite signed_app, (no_signing_signed _ Hno). reflexivity. }
  split; [| split; [exact Hsigned | split]].
  - destruct (new_RequestManager c) as [e|] eqn:H1.
    { destruct (processWallet_not_entered v walletData c s) as (e' & He');
        [left; congruence |].
      rewrite He' in Htr. cbn [snd] in Htr.
      rewrite <- (app_nil_r (trace s)) in Htr at 1.
      apply app_inv_head in Htr. subst tr. cbn. lia. }
    destruct (new_Wallet c) as [e|] eqn:H2.
    { destruct (processWallet_not_entered v walletData c s) as (e' & He');
        [right; congruence |].
      rewrite He' in Htr. cbn [snd] in Htr.
      rewrite <- (app_nil_r (trace s)) in Htr at 1.
      apply app_inv_head in Htr. subst tr. cbn. lia. }
    rewrite Hsigned by reflexivity. cbn. lia.
  - intros wallet signature timeout Hin.
    rewrite Forall_forall in Hall. apply list_elem_of_In, Hall in Hin. exact Hin.
  - intros (e & He). unfold processWallet, bind at 1, construct.
    destruct (new_RequestManager c); [reflexivity |].
    unfold ret, bind at 1.
    destruct (new_Wallet c); [reflexivity |].
    unfold try_catch. rewrite pipeline_from_signature, He. cbv zeta beta.
    unfold bind, read_property. now destruct (nullish e).
Qed.

Lemma processWallet_signature_witness :
  exists tr,
    trace (snd (processWallet ClaimV wallet_1 signing_fails fresh))
    = (trace fresh ++ tr)%list
    /\ (length (signed tr) <= 1)%nat
    /\ signed tr = [sign_message]
    /\ (forall wallet signature timeout,
          In (EvSimpleRequest wallet signature timeout) tr ->
          signMessage signing_fails = Return signature)
    /\ calls (snd (processWallet ClaimV wallet_1 signing_fails fresh)) = calls fresh.
Proof.
  destruct (processWallet_signature ClaimV wallet_1 signing_fails fresh)
    as (tr & Htr & Hlen & Hsigned & Hsig & Hnone).
  exists tr. split; [exact Htr |]. split; [exact Hlen |].
  split; [apply Hsigned; reflexivity |]. split; [exact Hsig |].
  apply Hnone. eexists. reflexivity.
Defined.

Lemma rounds_trace_add v c address signature : forall n k first retryCount,
  rounds_trace v c address signature first retryCount (n + k)
  = (rounds_trace v c address signature first retryCount n
     ++ rounds_trace v c address signature (first + n) (retryCount + Z.of_nat n) k)%list.
Proof.
  induction n as [|n IH]; intros k first retryCount.
  - cbn. now rewrite Nat.add_0_r, Z.add_0_r.
  - cbn [Nat.add rounds_trace]. rewrite IH.
    replace (S first + n)%nat with (first + S n)%nat by lia.
    replace (retryCount + 1 + Z.of_nat n) with (retryCount + Z.of_nat (S n)) by lia.
    cbn [app]. now rewrite <- app_assoc.
Qed.

Lemma length_wait_after (k : Z) (e : Err) :
  length (delays (wait_after k e))
  = if nullish e then 0%nat
    else if JS.strict_eq (response_status e) (JS.Num 429) then 1%nat
    else if k <? maxRetries then 1%nat else 0%nat.
Proof.
  unfold wait_after. destruct (nullish e); [reflexivity |].
  destruct (JS.strict_eq _ _); [reflexivity |].
  now destruct (k <? maxRetries).
Qed.

Lemma failed_rounds_waits v c address signature : forall n first retryCount,
  (forall j, (j < n)%nat ->
             attempt_response (simpleRequest c (first + j)) = None
             /\ rejects_nullish (simpleRequest c (first + j)) = false) ->
  retryCount + Z.of_nat n < maxRetries ->
  length (delays (rounds_trace v c address signature first retryCount n)) = n.
Proof.
  induction n as [|n IH]; intros first retryCount Hfail Hlt; [reflexivity |].
  cbn [rounds_trace].
  pose proof (Hfail 0%nat ltac:(lia)) as [H0 Hn0].
  rewrite Nat.add_0_r in H0, Hn0. rewrite H0.
  change (?ev :: ?l ++ ?r)%list with ([ev] ++ (l ++ r))%list.
  rewrite !delays_app, !length_app, length_wait_after.
  rewrite rejects_nullish_attempt_error, Hn0.
  rewrite IH.
  - destruct (JS.strict_eq _ _); [reflexivity |].
    destruct (Z.ltb_spec (retryCount + 1) maxRetries); [reflexivity | lia].
  - intros j Hj. replace (S first + j)%nat with (first + S j)%nat by lia.
    apply Hfail. lia.
  - lia.
Qed.

Lemma one_round_waits v c address signature first retryCount :
  length (delays (rounds_trace v c address signature first retryCount 1))
  = match attempt_response (simpleRequest c first) with
    | Some _ => 0%nat
    | None =>
        length (delays (wait_after (retryCount + 1)
                          (attempt_error (simpleRequest c first))))
    end.
Proof.
  cbn [rounds_trace].
  change (?ev :: ?l ++ ?r)%list with ([ev] ++ (l ++ r))%list.
  rewrite !delays_app, !length_app. cbn [delays flat_map app length].
  destruct (attempt_response _); cbn; lia.
Qed.

(** X22: the waits of the retry controller: a response returned at the
    attempt number [m + 1] has been preceded by exactly [m] waits, one
    after each failed attempt; when the five attempts fail with errors
    the [catch] clause can read, four waits have been made between them,
    and a fifth one after the last attempt exactly when that attempt
    failed with HTTP 429; and when the controller throws because a
    request was rejected with [undefined] or [null], every attempt before
    that one has been followed by one wait and that one by none. *)
Theorem checkEligibilityWithRetry_waits
    (v : Variant) (c : Collaborators) (address signature : string) (s : St) :
  exists ds,
    delays (trace (snd (checkEligibilityWithRetry v c address signature s)))
    = (delays (trace s) ++ ds)%list
    /\ match fst (checkEligibilityWithRetry v c address signature s) with
       | Return _ =>
           S (length ds)
           = (calls (snd (checkEligibilityWithRetry v c address signature s)) - calls s)%nat
       | Throw e =>
           (calls (snd (checkEligibilityWithRetry v c address signature s))
            = (calls s + 5)%nat
            /\ (forall j, (j < 5)%nat ->
                          rejects_nullish (simpleRequest c (calls s + j)) = false)
            /\ length ds
               = if JS.strict_eq (response_status e) (JS.Num 429) then 5%nat else 4%nat)
           \/ (calls (snd (checkEligibilityWithRetry v c address signature s))
               = (calls s + S (length ds))%nat
               /\ rejects_nullish (simpleRequest c (calls s + length ds)) = true)
       end.
Proof.
  unfold checkEligibilityWithRetry.
  destruct (retry_loop_spec v c address signature (Z.to_nat maxRetries) 0 None s)
    as (n & Hn & Hcalls & _ & Htrace & Hfail & Hout); [lia | reflexivity |].
  change (Z.to_nat maxRetries) with 5%nat in *.
  exists (delays (rounds_trace v c address signature (calls s) 0 n)).
  rewrite Htrace, delays_app. split; [reflexivity |].
  rewrite Hcalls.
  destruct (fst _) as [r|e].
  - destruct Hout as (m & -> & Hm).
    replace (S m) with (m + 1)%nat by lia.
    rewrite rounds_trace_add, delays_app, length_app.
    rewrite failed_rounds_waits.
    + rewrite one_round_waits, Hm. lia.
    + intros j Hj. apply Hfail. lia.
    + unfold maxRetries. lia.
  - destruct Hout as [(-> & Hall & ->) | (m & -> & Hm & _)].
    + left. split; [reflexivity |]. split; [intros j Hj; now apply Hall |].
      change 5%nat with (4 + 1)%nat at 1.
      rewrite rounds_trace_add, delays_app, length_app.
      rewrite failed_rounds_waits.
      * destruct (Hall 4%nat ltac:(lia)) as [H4 Hn4].
        rewrite one_round_waits, H4.
        rewrite length_wait_after, rejects_nullish_attempt_error, Hn4.
        cbn [last_error thrown].
        now destruct (JS.strict_eq _ _).
      * intros j Hj. apply Hall. lia.
      * unfold maxRetries. lia.
    + right.
      assert (Hlen : length (delays (rounds_trace v c address signature (calls s) 0 (S m)))
                     = m).
      { replace (S m) with (m + 1)%nat by lia.
        rewrite rounds_trace_add, delays_app, length_app.
        rewrite failed_rounds_waits.
        - rewrite one_round_waits.
          destruct (rejects_nullish_inv _ Hm) as [Hnone _]. rewrite Hnone.
          rewrite length_wait_after, rejects_nullish_attempt_error, Hm. lia.
        - intros j Hj. apply Hfail. lia.
        - unfold maxRetries. lia. }
      rewrite Hlen. split; [reflexivity | exact Hm].
Qed.
